(** * sid-farm-custom-api: a shallow embedding of the custom app code

    The development follows the four source files of [custom_app_api]:

    - [permission_query_conditions/employee.py]: the row-permission filter
      over the [reports_to] hierarchy (module [employee]);
    - [doc_events/route.py]: the [after_insert] hook that creates a
      Job Opening (module [route]);
    - [custom_api/api_end_points/farmer_visit_api.py]: the
      [create_farmer_visit] endpoint (module [farmer_visit_api]);
    - [custom_api/report/point_wise_attendance/point_wise_attendance.py]:
      the attendance report (module [point_wise_attendance]).

    Conventions.  Python [str] values are [string]s (byte strings in UTF-8,
    whose byte-wise order is the code-point order Python compares by), [int]
    values are [Z], [None] is the [None] of an [option], a [dict] used as a
    map is a [gmap], and a database table is the list of its rows.  String
    comparison inside database filters is exact equality.  The framework
    primitives the code calls ([get_all], [get_value], [insert], ...) are
    modelled by what they do on these tables. *)

From stdpp Require Import base option list strings gmap relations sorting.
From Stdlib Require Import QArith.

Close Scope Q_scope.

Set Default Proof Using "Type".

(* ===================================================================== *)
(** * Definitions                                                        *)
(* ===================================================================== *)

(** ** Python helpers shared by the modules *)

(** [sep.join(l)] *)
Fixpoint join (sep : string) (l : list string) : string :=
  match l with
  | [] => ""
  | [s] => s
  | s :: l' => s +:+ sep +:+ join sep l'
  end.

(** Truthiness of a value that is [None] or a [str]. *)
Definition truthy_str (o : option string) : bool :=
  match o with
  | Some s => bool_decide (s ≠ "")
  | None => false
  end.

(* --------------------------------------------------------------------- *)
(** ** permission_query_conditions/employee.py                           *)
(* --------------------------------------------------------------------- *)

Module employee.

(** A row of [tabEmployee], with the columns the filter reads. *)
Record Employee := {
  name : string;
  user_id : option string;
  reports_to : option string;
  status : option string
}.

(** What the function reads from the site: the Employee table, the roles
    of each user ([frappe.get_roles]) and the bound MariaDB puts on the
    number of rounds of a recursive query ([max_recursive_iterations]). *)
Record Site := {
  tabEmployee : list Employee;
  get_roles : string → list string;
  max_recursive_iterations : nat
}.

(** [frappe.db.get_value("Employee", {"user_id": user}, "name")]: the name
    of the first row that matches, [None] when there is none. *)
Definition get_value_name (tbl : list Employee) (user : string) : option string :=
  name <$> head (filter (λ e, user_id e = Some user) tbl).

(** A row of the common table expression [emp_hierarchy]. *)
Record HRow := {
  h_name : string;
  h_reports_to : option string;
  h_level : Z
}.

(** The anchor member: [SELECT name, reports_to, 1 FROM tabEmployee
    WHERE reports_to = employee]. *)
Definition anchor (tbl : list Employee) (employee : string) : list HRow :=
  (λ e, {| h_name := name e; h_reports_to := reports_to e; h_level := 1 |})
    <$> filter (λ e, reports_to e = Some employee) tbl.

(** The recursive member, applied to the rows of the previous round:
    [SELECT e.name, e.reports_to, eh.level + 1 FROM tabEmployee e
     INNER JOIN emp_hierarchy eh ON e.reports_to = eh.name]. *)
Definition recursive_member (tbl : list Employee) (prev : list HRow) : list HRow :=
  e ← tbl; eh ← prev;
  if decide (reports_to e = Some (h_name eh))
  then [ {| h_name := name e; h_reports_to := reports_to e;
            h_level := (h_level eh + 1)%Z |} ]
  else [].

(** [WITH RECURSIVE ... UNION ALL ...]: every round is kept (no duplicate
    is removed) and the query stops at the first round that gives no row,
    or when the rounds allowed are used up. *)
Fixpoint emp_hierarchy (fuel : nat) (tbl : list Employee) (prev : list HRow)
  : list HRow :=
  match fuel with
  | O => []
  | S n =>
      match prev with
      | [] => []
      | _ => prev ++ emp_hierarchy n tbl (recursive_member tbl prev)
      end
  end.

(** [subordinate_names = [employee]] extended with the names the query
    returns. *)
Definition subordinate_names (s : Site) (employee : string) : list string :=
  employee ::
    (h_name <$> emp_hierarchy (max_recursive_iterations s) (tabEmployee s)
                  (anchor (tabEmployee s) employee)).

(** The elements of the list [conditions].  The code holds them as SQL
    text; [render] gives that text and [holds] its meaning on a row. *)
Inductive Cond :=
| StatusActive
| NameIn (names : list string).

Definition render (c : Cond) : string :=
  match c with
  | StatusActive => "status = 'Active'"
  | NameIn names => "name in ('" +:+ join "','" names +:+ "')"
  end.

Definition holds (c : Cond) (e : Employee) : bool :=
  match c with
  | StatusActive => bool_decide (status e = Some "Active")
  | NameIn names => bool_decide (name e ∈ names)
  end.

(** A row is visible when every condition of the conjunction holds. *)
Definition visible (conditions : list Cond) (e : Employee) : bool :=
  forallb (λ c, holds c e) conditions.

(** The list [conditions] at the [return] the call reaches. *)
Definition conditions_for (s : Site) (user : string) : list Cond :=
  let conditions := [StatusActive] in
  if bool_decide ("System Manager" ∈ get_roles s user)
     || bool_decide (user = "Administrator")
  then conditions
  else
    let employee := get_value_name (tabEmployee s) user in
    match employee with
    | Some emp =>
        if truthy_str employee then
          let names := subordinate_names s emp in
          match names with
          | [] => conditions
          | _ => conditions ++ [NameIn names]
          end
        else conditions
    | None => conditions
    end.

(** [get_permission_query_conditions(user)]: [" and ".join(conditions)].
    The [msgprint] calls only add to the message log of the response and
    are left out. *)
Definition get_permission_query_conditions (s : Site) (user : string) : string :=
  join " and " (render <$> conditions_for s user).

(** [x] reports to [m]: some row named [x] has [m] as its [reports_to]. *)
Definition reports (tbl : list Employee) (x m : string) : Prop :=
  ∃ e, e ∈ tbl ∧ name e = x ∧ reports_to e = Some m.

(** [x] is a direct or indirect subordinate of [m]. *)
Definition subordinate (tbl : list Employee) (x m : string) : Prop :=
  tc (reports tbl) x m.

(** No employee is above itself. *)
Definition acyclic (tbl : list Employee) : Prop :=
  ∀ x, ¬ subordinate tbl x x.

(** The caller is let through without a look at the hierarchy. *)
Definition is_admin (s : Site) (user : string) : Prop :=
  "System Manager" ∈ get_roles s user ∨ user = "Administrator".

(** A small site: [ceo] <- [lead] <- [dev1], [dev2]; [old] has left. *)
Definition mk (n : string) (u r : option string) (st : string) : Employee :=
  {| name := n; user_id := u; reports_to := r; status := Some st |}.

Definition demo_site : Site := {|
  tabEmployee :=
    [ mk "E-ceo" (Some "ceo@x") None "Active";
      mk "E-dev1" (Some "dev1@x") (Some "E-lead") "Active";
      mk "E-lead" (Some "lead@x") (Some "E-ceo") "Active";
      mk "E-dev2" None (Some "E-lead") "Active";
      mk "E-old" None (Some "E-ceo") "Left" ];
  get_roles := λ u, if bool_decide (u = "root@x") then ["System Manager"] else ["Employee"];
  max_recursive_iterations := 1000
|}.

(** A site with a cycle: [A] reports to [B] and [B] to [A]. *)
Definition cyclic_site : Site := {|
  tabEmployee :=
    [ mk "A" (Some "a@x") (Some "B") "Active";
      mk "B" (Some "b@x") (Some "A") "Active" ];
  get_roles := λ _, ["Employee"];
  max_recursive_iterations := 1000
|}.

End employee.

(* --------------------------------------------------------------------- *)
(** ** doc_events/route.py                                               *)
(* --------------------------------------------------------------------- *)

(** [p] is a prefix of [s] ([s.startswith(p)]). *)
Fixpoint starts_with (p s : string) : bool :=
  match p, s with
  | EmptyString, _ => true
  | String a p', String b s' => bool_decide (a = b) && starts_with p' s'
  | String _ _, EmptyString => false
  end.

(** [sub in s] on strings: [sub] occurs in [s] as a substring. *)
Fixpoint contains (sub s : string) : bool :=
  starts_with sub s ||
  match s with
  | EmptyString => false
  | String _ s' => contains sub s'
  end.

(** [str.lower] on the ASCII letters; the other bytes are kept. *)
Definition ascii_lower (c : Ascii.ascii) : Ascii.ascii :=
  let n := Ascii.N_of_ascii c in
  if (65 <=? n)%N && (n <=? 90)%N then Ascii.ascii_of_N (n + 32) else c.

Fixpoint lower_ascii (s : string) : string :=
  match s with
  | EmptyString => EmptyString
  | String c s' => String (ascii_lower c) (lower_ascii s')
  end.

Module route.

(** The fields of the inserted route document that the hook reads.  A
    field that was not filled is [None]. *)
Record RouteDoc := {
  name : string;
  route_name : option string;
  branch : option string
}.

(** The dictionary handed to [frappe.get_doc] for the Job Opening. *)
Record JobOpening := {
  job_title : string;
  designation : string;
  status : string;
  posted_on : string;
  company : string;
  custom_travel_route : string;
  location : option string;
  route : string
}.

(** The part of the site the hook can change. *)
Record Site := {
  tabJobOpening : list JobOpening;
  commits : nat;
  tabErrorLog : list string
}.

(** What the hook takes from Python and the framework: [str.lower],
    [now_datetime()] and the effect of [get_doc(...).insert(...)] on the
    Job Opening table, with [false] when it raises. *)
Record Framework := {
  str_lower : string → string;
  now_datetime : string;
  insert_job_opening : list JobOpening → JobOpening → list JobOpening * bool
}.

(** The [except] branch: [frappe.log_error(..., title=...)]. *)
Definition log_error (doc : RouteDoc) (st : Site) : Site :=
  {| tabJobOpening := tabJobOpening st;
     commits := commits st;
     tabErrorLog :=
       tabErrorLog st ++ ["New Route Job Opening Creation Error - " +:+ name doc] |}.

Definition after_insert (fw : Framework) (doc : RouteDoc) (method : string)
    (st : Site) : Site :=
  match route_name doc with
  | None => log_error doc st   (* [None.lower()] raises AttributeError *)
  | Some rn =>
      if contains "default" (str_lower fw rn) then st
      else
        let job_opening := {|
          job_title := "Vacancy for " +:+ name doc;
          designation := "Delivery Partner";
          status := "Open";
          posted_on := now_datetime fw;
          company := "SIDS FARM PRIVATE LIMITED";
          custom_travel_route := name doc;
          location := branch doc;
          route := "jobs/sids_farm_private_limited/" +:+ str_lower fw (name doc)
        |} in
        let '(tbl, ok) := insert_job_opening fw (tabJobOpening st) job_opening in
        let st' := {| tabJobOpening := tbl; commits := commits st;
                      tabErrorLog := tabErrorLog st |} in
        if ok
        then {| tabJobOpening := tbl; commits := S (commits st);
                tabErrorLog := tabErrorLog st |}
        else log_error doc st'
  end.

(** A framework for examples: ASCII [lower], an insert that always
    succeeds. *)
Definition demo_fw : Framework := {|
  str_lower := lower_ascii;
  now_datetime := "2025-01-01 00:00:00";
  insert_job_opening := λ tbl jo, (tbl ++ [jo], true)
|}.

Definition empty_site : Site :=
  {| tabJobOpening := []; commits := 0; tabErrorLog := [] |}.

(** The Job Opening the hook makes for [doc]. *)
Definition job_opening_for (fw : Framework) (doc : RouteDoc) : JobOpening :=
  {| job_title := "Vacancy for " +:+ name doc;
     designation := "Delivery Partner";
     status := "Open";
     posted_on := now_datetime fw;
     company := "SIDS FARM PRIVATE LIMITED";
     custom_travel_route := name doc;
     location := branch doc;
     route := "jobs/sids_farm_private_limited/" +:+ str_lower fw (name doc) |}.

(** The title of the Error Log entry for [doc]. *)
Definition error_title (doc : RouteDoc) : string :=
  "New Route Job Opening Creation Error - " +:+ name doc.

(** A framework whose insert always raises, leaving the table as it is. *)
Definition failing_fw : Framework := {|
  str_lower := lower_ascii;
  now_datetime := "2025-01-01 00:00:00";
  insert_job_opening := λ tbl jo, (tbl, false)
|}.

End route.

(* --------------------------------------------------------------------- *)
(** ** custom_api/api_end_points/farmer_visit_api.py                     *)
(* --------------------------------------------------------------------- *)

Module farmer_visit_api.

(** The values of the fields of a document, as they come from JSON. *)
Inductive Value :=
| VNone
| VStr (s : string)
| VInt (z : Z).

(** A raised exception: its class and [str(e)]. *)
Record Exc := { exc_class : string; exc_str : string }.

(** The response dictionary all the endpoints return. *)
Record Envelope := {
  success : bool;
  status : string;
  message : string;
  code : string;
  data : option (gmap string Value);
  http_status_code : Z
}.

(** The tables the endpoint writes and [frappe.local.response]. *)
Record Site := {
  tabFarmerDetails : list (string * gmap string Value);
  tabVisitTracker : list (string * Z * gmap string Value);
  tabFile : list string;
  response_http_status_code : option Z
}.

(** What [verify_dp_token] gives back: [(False, result)] with the
    response to return, or [(True, result)] with the token's data. *)
Inductive Verified :=
| Invalid (result : Envelope)
| Valid (result : gmap string Value).

(** What a call to [handle_base64_image] does. *)
Inductive ImageResult :=
| ImageStored (image_result : gmap string Value)
| ImageValidationError (e : Exc)
| ImageOtherError (e : Exc).

(** The functions the endpoint calls that this file does not define:
    [verify_dp_token] and [handle_error_response] of [attendance_api],
    [handle_base64_image], and the document operations of the framework.
    Each document operation works on the table of its own DocType and
    gives the table it leaves behind, with the new name or the exception
    raised. *)
Record Framework := {
  verify_dp_token : string → Verified;
  handle_error_response : Exc → string → Envelope;
  handle_base64_image :
    Value → string → Z → list string → list string * ImageResult;
  insert_farmer :
    list (string * gmap string Value) → gmap string Value →
    list (string * gmap string Value) * (Exc + string);
  insert_visit :
    list (string * Z * gmap string Value) → gmap string Value →
    list (string * Z * gmap string Value) * (Exc + string);
  submit_visit :
    list (string * Z * gmap string Value) → string →
    list (string * Z * gmap string Value) * option Exc
}.

(** [frappe.local.response['http_status_code'] = c] *)
Definition set_status (c : Z) (st : Site) : Site :=
  {| tabFarmerDetails := tabFarmerDetails st;
     tabVisitTracker := tabVisitTracker st;
     tabFile := tabFile st;
     response_http_status_code := Some c |}.

Definition with_farmers (tbl : list (string * gmap string Value)) (st : Site) : Site :=
  {| tabFarmerDetails := tbl;
     tabVisitTracker := tabVisitTracker st;
     tabFile := tabFile st;
     response_http_status_code := response_http_status_code st |}.

Definition with_visits (tbl : list (string * Z * gmap string Value)) (st : Site) : Site :=
  {| tabFarmerDetails := tabFarmerDetails st;
     tabVisitTracker := tbl;
     tabFile := tabFile st;
     response_http_status_code := response_http_status_code st |}.

Definition with_files (tbl : list string) (st : Site) : Site :=
  {| tabFarmerDetails := tabFarmerDetails st;
     tabVisitTracker := tabVisitTracker st;
     tabFile := tbl;
     response_http_status_code := response_http_status_code st |}.

(** The error responses of the endpoint. *)
Definition error_envelope (msg c : string) (http : Z) : Envelope :=
  {| success := false; status := "error"; message := msg; code := c;
     data := None; http_status_code := http |}.

(** The outer [except Exception]: status 500 and the generic handler. *)
Definition unhandled (fw : Framework) (e : Exc) (st : Site) : Site * Envelope :=
  (set_status 500 st, handle_error_response fw e "Error creating farmer visit").

(** Truthiness of an optional dictionary: [None] and [{}] are false. *)
Definition truthy_dict (o : option (gmap string Value)) : bool :=
  match o with
  | Some d => bool_decide (d ≠ ∅)
  | None => false
  end.

(** [{"doctype": "Farmer Details", "registered_by": employee, **detail}]:
    the keys of [detail] win. *)
Definition farmer_doc (employee : Value) (detail : gmap string Value)
  : gmap string Value :=
  detail ∪ <["doctype" := VStr "Farmer Details"]>
             (<["registered_by" := employee]> ∅).

(** [{"doctype": "Visit Tracker", "farmer": farmer_name,
      "visited_by": employee, **visit_tracker_detail}] *)
Definition visit_doc (farmer_name employee : Value) (detail : gmap string Value)
  : gmap string Value :=
  detail ∪ <["doctype" := VStr "Visit Tracker"]>
             (<["farmer" := farmer_name]> (<["visited_by" := employee]> ∅)).

(** The last block: create the Visit Tracker record and submit it. *)
Definition create_visit (fw : Framework) (farmer_name employee : Value)
    (detail : gmap string Value) (st : Site) : Site * Envelope :=
  let failed (e : Exc) (st : Site) :=
    (set_status 400 st,
     error_envelope ("Failed to create visit: " +:+ exc_str e)
       "VISIT_CREATION_FAILED" 400) in
  match insert_visit fw (tabVisitTracker st) (visit_doc farmer_name employee detail) with
  | (tbl, inl e) => failed e (with_visits tbl st)
  | (tbl, inr visit_name) =>
      match submit_visit fw tbl visit_name with
      | (tbl', Some e) => failed e (with_visits tbl' st)
      | (tbl', None) =>
          (set_status 201 (with_visits tbl' st),
           {| success := true; status := "success";
              message := "Visit record created successfully";
              code := "VISIT_CREATED";
              data := Some (<["visit_id" := VStr visit_name]>
                              (<["farmer_id" := farmer_name]> ∅));
              http_status_code := 201 |})
      end
  end.

(** The block before it: a [visit_image] given in base64 is stored and
    replaced by the URL of the file. *)
Definition handle_image (fw : Framework) (detail : gmap string Value) (st : Site)
  : Site * (Envelope + gmap string Value) + Exc * Site :=
  match detail !! "visit_image" with
  | None => inl (st, inr detail)
  | Some img =>
      let popped := delete "visit_image" detail in
      match handle_base64_image fw img "visit" 0 (tabFile st) with
      | (files, ImageStored image_result) =>
          match image_result !! "file_url" with
          | Some url => inl (with_files files st, inr (<["visit_image" := url]> popped))
          | None => inr ({| exc_class := "KeyError"; exc_str := "'file_url'" |},
                         with_files files st)
          end
      | (files, ImageValidationError e) =>
          inl (set_status 400 (with_files files st),
               inl (error_envelope (exc_str e) "IMAGE_PROCESSING_FAILED" 400))
      | (files, ImageOtherError e) => inr (e, with_files files st)
      end
  end.

Definition create_farmer_visit (fw : Framework) (headers : string)
    (farmer_name : option string)
    (farmer_create_detail : option (gmap string Value))
    (visit_tracker_detail : gmap string Value) (st : Site) : Site * Envelope :=
  match verify_dp_token fw headers with
  | Invalid result => (set_status 401 st, result)
  | Valid result =>
      match result !! "employee" with
      | None => unhandled fw {| exc_class := "KeyError"; exc_str := "'employee'" |} st
      | Some employee =>
          if negb (truthy_str farmer_name) && negb (truthy_dict farmer_create_detail)
          then (set_status 400 st,
                error_envelope "Either farmer_name or farmer_create_detail must be provided"
                  "INVALID_INPUT" 400)
          else
            (* Create new farmer if details provided *)
            let farmer :=
              match farmer_create_detail with
              | Some detail =>
                  if truthy_dict farmer_create_detail then
                    match insert_farmer fw (tabFarmerDetails st)
                            (farmer_doc employee detail) with
                    | (tbl, inl e) => inl (with_farmers tbl st, e)
                    | (tbl, inr new_name) => inr (with_farmers tbl st, VStr new_name)
                    end
                  else inr (st, from_option VStr VNone farmer_name)
              | None => inr (st, from_option VStr VNone farmer_name)
              end in
            match farmer with
            | inl (st1, e) =>
                (set_status 400 st1,
                 error_envelope ("Failed to create farmer: " +:+ exc_str e)
                   "FARMER_CREATION_FAILED" 400)
            | inr (st1, farmer_name) =>
                match handle_image fw visit_tracker_detail st1 with
                | inr (e, st2) => unhandled fw e st2
                | inl (st2, inl response) => (st2, response)
                | inl (st2, inr detail) =>
                    create_visit fw farmer_name employee detail st2
                end
            end
      end
  end.

(** The Visit Tracker insert, or else the submit after it, raises [e]. *)
Definition visit_fails (fw : Framework) (tbl : list (string * Z * gmap string Value))
    (doc : gmap string Value) (e : Exc) : Prop :=
  (∃ tbl', insert_visit fw tbl doc = (tbl', inl e)) ∨
  (∃ tbl' visit_name tbl'',
     insert_visit fw tbl doc = (tbl', inr visit_name) ∧
     submit_visit fw tbl' visit_name = (tbl'', Some e)).

(** A framework for examples.  Every token is accepted for employee
    [EMP-0001]; a farmer needs a [farmer_name] and a visit a
    [visit_date] to be inserted; a visit without [purpose] cannot be
    submitted; no image is ever accepted. *)
Definition demo_fw : Framework := {|
  verify_dp_token := λ _, Valid {[ "employee" := VStr "EMP-0001" ]};
  handle_error_response := λ e title, error_envelope title "INTERNAL_ERROR" 500;
  handle_base64_image := λ _ _ _ files,
    (files, ImageValidationError {| exc_class := "ValidationError";
                                    exc_str := "Invalid image" |});
  insert_farmer := λ tbl doc,
    match doc !! "farmer_name" with
    | Some (VStr n) => (tbl ++ [("FARMER-" +:+ n, doc)], inr ("FARMER-" +:+ n))
    | _ => (tbl, inl {| exc_class := "MandatoryError"; exc_str := "farmer_name" |})
    end;
  insert_visit := λ tbl doc,
    match doc !! "visit_date" with
    | Some (VStr d) => (tbl ++ [("VISIT-" +:+ d, 0%Z, doc)], inr ("VISIT-" +:+ d))
    | _ => (tbl, inl {| exc_class := "MandatoryError"; exc_str := "visit_date" |})
    end;
  submit_visit := λ tbl visit_name,
    match head (filter (λ r, r.1.1 = visit_name) tbl) with
    | Some (_, _, doc) =>
        match doc !! "purpose" with
        | Some _ =>
            ((λ r, if bool_decide (r.1.1 = visit_name) then (r.1.1, 1%Z, r.2) else r)
               <$> tbl, None)
        | None => (tbl, Some {| exc_class := "MandatoryError"; exc_str := "purpose" |})
        end
    | None => (tbl, Some {| exc_class := "DoesNotExistError"; exc_str := visit_name |})
    end
|}.

Definition empty_site : Site :=
  {| tabFarmerDetails := []; tabVisitTracker := []; tabFile := [];
     response_http_status_code := None |}.

(** *** The read endpoints *)

Global Instance Value_eq_dec : EqDecision Value.
Proof. solve_decision. Defined.

(** A response built by a read endpoint; its [data] has type [D]. *)
Record Reply (D : Type) := {
  r_success : bool;
  r_status : string;
  r_message : string;
  r_code : string;
  r_data : option D;
  r_http_status_code : Z
}.
Global Arguments r_success {D} _.
Global Arguments r_status {D} _.
Global Arguments r_message {D} _.
Global Arguments r_code {D} _.
Global Arguments r_data {D} _.
Global Arguments r_http_status_code {D} _.

Definition error_reply {D} (msg c : string) (http : Z) : Reply D :=
  {| r_success := false; r_status := "error"; r_message := msg; r_code := c;
     r_data := None; r_http_status_code := http |}.

Definition ok_reply {D} (msg c : string) (d : D) : Reply D :=
  {| r_success := true; r_status := "success"; r_message := msg; r_code := c;
     r_data := Some d; r_http_status_code := 200 |}.

(** The newline character and [s.split(sep)] for a one-character [sep]:
    the pieces of [s] between the separators, at least one piece. *)
Definition newline : Ascii.ascii :=
  Ascii.Ascii false true false true false false false false.

Fixpoint split_on (sep : Ascii.ascii) (s : string) : list string :=
  match s with
  | EmptyString => [EmptyString]
  | String c s' =>
      if decide (c = sep) then EmptyString :: split_on sep s'
      else
        match split_on sep s' with
        | seg :: rest => String c seg :: rest
        | [] => [String c EmptyString]
        end
  end.

(** A field of a DocType's meta. *)
Record DocField := {
  fieldname : string;
  fieldtype : string;
  options : option string
}.

(** [[opt for opt in field.options.split('\n') if opt]] *)
Definition field_options (opts : string) : list string :=
  filter (λ opt, opt ≠ "") (split_on newline opts).

(** One round of [for field in select_fields]. *)
Definition add_field_options (acc : gmap string (list string)) (field : DocField)
  : gmap string (list string) :=
  match options field with
  | Some opts =>
      if bool_decide (opts ≠ "") then <[fieldname field := field_options opts]> acc
      else acc
  | None => acc
  end.

(** [doctype_options] for the fields of one DocType. *)
Definition doctype_options (fields : list DocField) : gmap string (list string) :=
  foldl add_field_options ∅ (filter (λ field, fieldtype field = "Select") fields).

(** The loop over [doctypes.items()]; [inl doctype] when [get_meta]
    raises for [doctype]. *)
Fixpoint options_loop (get_meta : string → Exc + list DocField)
    (doctypes : list (string * string))
    (acc : gmap string (gmap string (list string)))
  : string + gmap string (gmap string (list string)) :=
  match doctypes with
  | [] => inr acc
  | (key, doctype) :: rest =>
      match get_meta doctype with
      | inl _ => inl doctype
      | inr fields => options_loop get_meta rest (<[key := doctype_options fields]> acc)
      end
  end.

(** [get_field_options()]: the status set on the response and the
    dictionary returned, which is the one [verify_dp_token] made ([inl])
    or one built here ([inr]). *)
Definition get_field_options (fw : Framework)
    (get_meta : string → Exc + list DocField) (headers : string)
  : Z * (Envelope + Reply (gmap string (gmap string (list string)))) :=
  match verify_dp_token fw headers with
  | Invalid result => (401%Z, inl result)
  | Valid _ =>
      match options_loop get_meta
              [("farmer_details", "Farmer Details"); ("visit_tracker", "Visit Tracker")]
              ∅ with
      | inl doctype =>
          (404%Z, inr (error_reply ("DocType " +:+ doctype +:+ " not found")
                       "DOCTYPE_NOT_FOUND" 404))
      | inr opts =>
          (200%Z, inr (ok_reply "Options retrieved successfully" "OPTIONS_RETRIEVED" opts))
      end
  end.

(** The reference tables the other read endpoints query. *)
Record Village := {
  v_name : string;
  village_name : Value;
  state : Value;
  pincode : Value;
  latitude : Value;
  longitude : Value;
  nearest_towncity : Value
}.

Record BMC := {
  b_name : string;
  bmc_name : Value;
  b_state : Value;
  location : Value
}.

(** [tabVillageBDEMapping] holds (name, employee) and [tabVillageMap],
    the child table, holds (parent, village). *)
Record RefTables := {
  tabVillageBDEMapping : list (string * Value);
  tabVillageMap : list (string * string);
  tabVillage : list Village;
  tabBMC : list BMC
}.

(** [frappe.get_doc("Village", name)]: raises when there is no such
    village. *)
Definition get_village (t : RefTables) (village : string) : Exc + Village :=
  match head (filter (λ v, v_name v = village) (tabVillage t)) with
  | Some v => inr v
  | None => inl {| exc_class := "DoesNotExistError";
                   exc_str := "Village " +:+ village +:+ " not found" |}
  end.

(** The loop [for village in villages]: the details of each village, or
    the first exception. *)
Fixpoint village_details (t : RefTables) (villages : list string) : Exc + list Village :=
  match villages with
  | [] => inr []
  | village :: rest =>
      match get_village t village with
      | inl e => inl e
      | inr v =>
          match village_details t rest with
          | inl e => inl e
          | inr details => inr (v :: details)
          end
      end
  end.

Definition get_assigned_villages (fw : Framework) (t : RefTables) (headers : string)
  : Z * (Envelope + Reply (list Village)) :=
  let failed e := (500%Z, inl (handle_error_response fw e
                                 "Error retrieving assigned villages")) in
  match verify_dp_token fw headers with
  | Invalid result => (401%Z, inl result)
  | Valid result =>
      match result !! "employee" with
      | None => failed {| exc_class := "KeyError"; exc_str := "'employee'" |}
      | Some employee =>
          let village_mapping :=
            filter (λ m, m.2 = employee) (tabVillageBDEMapping t) in
          match village_mapping with
          | [] =>
              (404%Z, inr (error_reply "No villages assigned to this employee"
                           "NO_VILLAGES_ASSIGNED" 404))
          | first :: _ =>
              let villages := filter (λ vm, vm.1 = first.1) (tabVillageMap t) in
              match village_details t (villages.*2) with
              | inl e => failed e
              | inr details =>
                  (200%Z, inr (ok_reply "Villages retrieved successfully"
                               "VILLAGES_RETRIEVED" details))
              end
          end
      end
  end.

Definition get_bmc_list (fw : Framework) (t : RefTables) (headers : string)
  : Z * (Envelope + Reply (list BMC)) :=
  match verify_dp_token fw headers with
  | Invalid result => (401%Z, inl result)
  | Valid _ =>
      match tabBMC t with
      | [] => (404%Z, inr (error_reply "No BMCs found" "NO_BMCS_FOUND" 404))
      | bmc_list =>
          (200%Z, inr (ok_reply "BMC list retrieved successfully" "BMC_LIST_RETRIEVED"
                       bmc_list))
      end
  end.

(** Example data for the read endpoints. *)
Definition demo_meta (doctype : string) : Exc + list DocField :=
  if bool_decide (doctype = "Farmer Details") then
    inr [ {| fieldname := "gender"; fieldtype := "Select";
             options := Some (String newline ("Male" +:+ String newline "Female")) |};
          {| fieldname := "farmer_name"; fieldtype := "Data"; options := None |} ]
  else if bool_decide (doctype = "Visit Tracker") then
    inr [ {| fieldname := "purpose"; fieldtype := "Select";
             options := Some ("Survey" +:+ String newline "Sale") |} ]
  else inl {| exc_class := "DoesNotExistError"; exc_str := doctype |}.

Definition village (n : string) : Village :=
  {| v_name := n; village_name := VStr n; state := VStr "TS"; pincode := VNone;
     latitude := VNone; longitude := VNone; nearest_towncity := VNone |}.

Definition demo_tables : RefTables := {|
  tabVillageBDEMapping := [ ("MAP-1", VStr "EMP-0001"); ("MAP-2", VStr "EMP-0001");
                            ("MAP-3", VStr "EMP-0002") ];
  tabVillageMap := [ ("MAP-1", "V1"); ("MAP-2", "V3"); ("MAP-1", "V2");
                     ("MAP-3", "V9") ];
  tabVillage := [ village "V1"; village "V2"; village "V3" ];
  tabBMC := []
|}.


(** The codes of the error responses the endpoint builds with status
    400. *)
Definition codes_400 : list string :=
  ["INVALID_INPUT"; "FARMER_CREATION_FAILED"; "IMAGE_PROCESSING_FAILED";
   "VISIT_CREATION_FAILED"].

(** The three shapes of what [create_farmer_visit] gives back. *)
Definition passes_verifier (fw : Framework) (headers : string) (out : Site * Envelope)
  : Prop :=
  response_http_status_code out.1 = Some 401%Z ∧
  verify_dp_token fw headers = Invalid out.2.

Definition passes_handler (fw : Framework) (out : Site * Envelope) : Prop :=
  response_http_status_code out.1 = Some 500%Z ∧
  ∃ e, out.2 = handle_error_response fw e "Error creating farmer visit".

Definition own_response (out : Site * Envelope) : Prop :=
  response_http_status_code out.1 = Some (http_status_code out.2) ∧
  ((http_status_code out.2 = 201%Z ∧ success out.2 = true ∧
    code out.2 = "VISIT_CREATED" ∧ is_Some (data out.2)) ∨
   (http_status_code out.2 = 400%Z ∧ success out.2 = false ∧
    data out.2 = None ∧ code out.2 ∈ codes_400)).

(** A string without newline, and [newline] as a string. *)
Definition one_line (s : string) : Prop := contains (String newline "") s = false.

Definition nl : string := String newline "".

(** What [get_field_options] answers when all goes well. *)
Definition options_reply (opts : gmap string (gmap string (list string)))
  : Z * (Envelope + Reply (gmap string (gmap string (list string)))) :=
  (200%Z, inr (ok_reply "Options retrieved successfully" "OPTIONS_RETRIEVED" opts)).

(** The Select field [field] of [fields] gives the list [l] under
    [fn]. *)
Definition listed_from (fields : list DocField) (fn : string) (l : list string) : Prop :=
  ∃ field opts, field ∈ fields ∧ fieldname field = fn ∧ fieldtype field = "Select" ∧
    options field = Some opts ∧ opts ≠ "" ∧ l = field_options opts.

(** The status set on the response and the dictionary a read endpoint
    returns go together: a dictionary passed on from the verifier or the
    generic handler comes with 401 or 500; one built by the endpoint has
    the status as its [http_status_code], and is a success with data
    (200) or an error without data (404). *)
Definition reply_agrees {D} (out : Z * (Envelope + Reply D)) : Prop :=
  match out.2 with
  | inl _ => out.1 = 401%Z ∨ out.1 = 500%Z
  | inr r =>
      out.1 = r_http_status_code r ∧
      ((out.1 = 200%Z ∧ r_success r = true ∧ r_status r = "success" ∧
        is_Some (r_data r)) ∨
       (out.1 = 404%Z ∧ r_success r = false ∧ r_status r = "error" ∧
        r_data r = None))
  end.

End farmer_visit_api.

(* --------------------------------------------------------------------- *)
(** ** custom_api/report/point_wise_attendance/point_wise_attendance.py  *)
(* --------------------------------------------------------------------- *)

(** [sum(g(row) for row in l)] *)
Definition sum_of {A} (g : A → Z) (l : list A) : Z :=
  foldl (λ acc x, acc + g x)%Z 0%Z l.

(** [a / b] on integers: the quotient as a rational, [None] for the
    [ZeroDivisionError] Python raises when [b] is 0.  The rounding of
    Python's floats is not modelled. *)
Definition py_truediv (a b : Z) : option Q :=
  if bool_decide (b = 0%Z) then None else Some (inject_Z a / inject_Z b)%Q.

(** [l[:-1]] *)
Definition all_but_last {A} (l : list A) : list A := take (length l - 1) l.

(** [s1 < s2] on strings. *)
Definition str_lt (s1 s2 : string) : bool :=
  bool_decide (s1 ≤ s2)%string && bool_decide (s1 ≠ s2).

(** [k1 < k2] on pairs of strings, as Python compares tuples: the first
    components that differ decide. *)
Definition key_lt (k1 k2 : string * string) : bool :=
  if decide (k1.1 = k2.1) then str_lt k1.2 k2.2 else str_lt k1.1 k2.1.

(** [l.sort(key=key)].  Python's sort is stable, and a stable sort has
    one possible result ([sort_by_key_unique] below), so the algorithm
    does not matter; here an element goes in front of the first one that
    is not smaller than it. *)
Fixpoint insert_by_key {A} (key : A → string * string) (x : A) (l : list A) : list A :=
  match l with
  | [] => [x]
  | y :: l' =>
      if key_lt (key y) (key x) then y :: insert_by_key key x l'
      else x :: y :: l'
  end.

Definition sort_by_key {A} (key : A → string * string) (l : list A) : list A :=
  foldr (insert_by_key key) [] l.

(** [k1 <= k2] in the lexicographic order of pairs of strings. *)
Definition lex_le (k1 k2 : string * string) : Prop :=
  (k1.1 ≠ k2.1 ∧ (k1.1 ≤ k2.1)%string) ∨ (k1.1 = k2.1 ∧ (k1.2 ≤ k2.2)%string).

(** The order of the elements of a list by their keys. *)
Definition key_le {A} (key : A → string * string) (x y : A) : Prop :=
  lex_le (key x) (key y).

(** The result of [GROUP BY k] with [count( * )]: one pair per value of
    [k], with the number of rows that have it.  The order of the groups
    is the database's; here it is that of their last rows. *)
Definition group_count (keys : list string) : list (string * Z) :=
  (λ k, (k, Z.of_nat (length (filter (λ k', k' = k) keys)))) <$> remove_dups keys.

(** A filter [("in", l)] on a column that may be NULL. *)
Definition sql_in (v : option string) (l : list string) : Prop :=
  ∃ s, v = Some s ∧ s ∈ l.

Global Instance sql_in_dec v l : Decision (sql_in v l).
Proof.
  destruct v as [s|].
  - destruct (decide (s ∈ l)) as [H|H].
    + left. by exists s.
    + right. intros (s' & [= <-] & ?). done.
  - right. by intros (s & ? & _).
Defined.

Module point_wise_attendance.

Record Point := {
  pt_name : string;
  pt_zone_name : option string;
  pt_is_active : Z
}.

Record Zone := {
  zn_name : string;
  zn_zone_name : option string
}.

Record Employee := {
  emp_name : string;
  emp_company : option string;
  emp_status : option string;
  emp_custom_point : option string;
  emp_designation : option string
}.

Record Attendance := {
  att_employee : string;
  att_attendance_date : string;
  att_status : string;
  att_docstatus : Z
}.

(** The tables the report reads, as the session user sees them, and the
    nested set of companies ([get_descendants_of("Company", c)]). *)
Record Site := {
  tabPoint : list Point;
  tabZone : list Zone;
  tabEmployee : list Employee;
  tabAttendance : list Attendance;
  get_descendants_of : string → list string
}.

(** The filters of the report.  [companies] is the attribute [execute]
    sets; an option that is absent is [None] or the empty list. *)
Record Filters := {
  company : option string;
  include_company_descendants : bool;
  date : string;
  zones : list string;
  points : list string;
  companies : list string
}.

(** A row of the report: the point rows, the zone totals and the grand
    total are dictionaries with the same keys. *)
Record Row := {
  zone : option string;
  point : string;
  total_employees : Z;
  present : Z;
  absent : Z;
  on_leave : Z;
  attendance_percentage : Q
}.

(** An entry of [zone_wise_data]. *)
Record Totals := {
  t_total_employees : Z;
  t_present : Z;
  t_absent : Z;
  t_on_leave : Z
}.

(** [(present / total_marked * 100) if total_marked else 0] *)
Definition percentage (present total_marked : Z) : option Q :=
  if bool_decide (total_marked ≠ 0%Z)
  then q ← py_truediv present total_marked; Some (q * 100)%Q
  else Some 0%Q.

(** [frappe.get_list("Point", filters=point_filters)] *)
Definition allowed_points (f : Filters) (s : Site) : list Point :=
  filter (λ p, pt_is_active p = 1%Z ∧
               (zones f = [] ∨ sql_in (pt_zone_name p) (zones f)))
         (tabPoint s).

(** [{zone.name: zone.zone_name for zone in zones}] *)
Definition zone_map (s : Site) : gmap string (option string) :=
  foldl (λ m z, <[zn_name z := zn_zone_name z]> m) ∅ (tabZone s).

(** [zone_map.get(p.zone_name, "")] *)
Definition zone_map_get (m : gmap string (option string)) (k : option string)
  : option string :=
  match k with
  | Some k => default (Some "") (m !! k)
  | None => Some ""
  end.

(** [{p.name: zone_map.get(p.zone_name, "") for p in allowed_points}] *)
Definition point_zone_map (f : Filters) (s : Site) : gmap string (option string) :=
  foldl (λ m p, <[pt_name p := zone_map_get (zone_map s) (pt_zone_name p)]> m)
        ∅ (allowed_points f s).

(** The list of the filter on [custom_point]. *)
Definition custom_point_filter (f : Filters) (s : Site) : list string :=
  let names := pt_name <$> allowed_points f s in
  match points f with
  | [] => names
  | _ => filter (λ p, p ∈ names) (points f)
  end.

(** The employees counted: of the companies, active. *)
Definition counted (f : Filters) (e : Employee) : Prop :=
  sql_in (emp_company e) (companies f) ∧ emp_status e = Some "Active".

(** [points]: the employees grouped by [custom_point]. *)
Definition points_query (f : Filters) (s : Site) : list (string * Z) :=
  group_count
    (omap emp_custom_point
       (filter (λ e, counted f e ∧ sql_in (emp_custom_point e) (custom_point_filter f s))
               (tabEmployee s))).

(** [point_employees], by name. *)
Definition point_employees (f : Filters) (s : Site) (pt : string) : list string :=
  emp_name <$> filter (λ e, emp_custom_point e = Some pt ∧ counted f e) (tabEmployee s).

(** The submitted Attendance rows of the date for these employees. *)
Definition attendance_rows (f : Filters) (s : Site) (employees : list string)
  : list Attendance :=
  filter (λ a, att_attendance_date a = date f ∧ att_employee a ∈ employees ∧
               att_docstatus a = 1%Z)
         (tabAttendance s).

(** [attendance_counts]: these rows grouped by [status]. *)
Definition attendance_counts (f : Filters) (s : Site) (employees : list string)
  : list (string * Z) :=
  group_count (att_status <$> attendance_rows f s employees).

(** The loop over [attendance_counts]; the state is
    [(present, absent, on_leave)]. *)
Definition count_step (acc : Z * Z * Z) (count_data : string * Z) : Z * Z * Z :=
  let '(present, absent, on_leave) := acc in
  let '(status, count) := count_data in
  if bool_decide (status ∈ ["Present"; "Work From Home"]) then (count, absent, on_leave)
  else if bool_decide (status = "Absent") then (present, count, on_leave)
  else if bool_decide (status = "On Leave") then (present, absent, count)
  else acc.

Definition count_loop (attendance_counts : list (string * Z)) : Z * Z * Z :=
  foldl count_step (0, 0, 0)%Z attendance_counts.

(** The dictionary [zone_wise_data[zone]] after the four [+=]. *)
Definition add_point (total_employees present absent on_leave : Z) (t : Totals) : Totals :=
  {| t_total_employees := t_total_employees t + total_employees;
     t_present := t_present t + present;
     t_absent := t_absent t + absent;
     t_on_leave := t_on_leave t + on_leave |}.

Definition no_totals : Totals :=
  {| t_total_employees := 0; t_present := 0; t_absent := 0; t_on_leave := 0 |}.

(** One round of [for point_data in points]; the state is
    [(data, zone_wise_data)]. *)
Definition point_step (f : Filters) (s : Site)
    (acc : list Row * gmap (option string) Totals) (point_data : string * Z)
  : option (list Row * gmap (option string) Totals) :=
  let '(data, zone_wise_data) := acc in
  let '(pt, total) := point_data in
  if bool_decide (pt = "") then Some acc
  else
    let zone := default (Some "") (point_zone_map f s !! pt) in
    let '(present, absent, on_leave) :=
      count_loop (attendance_counts f s (point_employees f s pt)) in
    let total_marked := (present + absent + on_leave)%Z in
    attendance_percentage ← percentage present total_marked;
    let row_data := {|
      zone := zone; point := pt; total_employees := total;
      present := present; absent := absent; on_leave := on_leave;
      attendance_percentage := attendance_percentage |} in
    let zone_wise_data :=
      match zone_wise_data !! zone with
      | None => <[zone := no_totals]> zone_wise_data
      | Some _ => zone_wise_data
      end in
    Some (data ++ [row_data],
          alter (add_point total present absent on_leave) zone zone_wise_data).

Fixpoint point_loop (f : Filters) (s : Site) (points : list (string * Z))
    (acc : list Row * gmap (option string) Totals)
  : option (list Row * gmap (option string) Totals) :=
  match points with
  | [] => Some acc
  | point_data :: points' =>
      acc' ← point_step f s acc point_data;
      point_loop f s points' acc'
  end.

(** [data] and [zone_wise_data] before the sort. *)
Definition collect_points (f : Filters) (s : Site)
  : option (list Row * gmap (option string) Totals) :=
  point_loop f s (points_query f s) ([], ∅).

(** [(x["zone"] or "", x["point"] or "")] *)
Definition sort_key (r : Row) : string * string :=
  (match zone r with Some z => z | None => "" end, point r).

(** The dictionary appended for the total of a zone; the lookup
    [zone_wise_data[current_zone]] raises KeyError on a missing key. *)
Definition zone_total_row (zone_wise_data : gmap (option string) Totals)
    (current_zone : string) : option Row :=
  zone_total ← zone_wise_data !! Some current_zone;
  let zone_marked := (t_present zone_total + t_absent zone_total
                      + t_on_leave zone_total)%Z in
  pct ← percentage (t_present zone_total) zone_marked;
  Some {| zone := Some (current_zone +:+ " Total"); point := "";
          total_employees := t_total_employees zone_total;
          present := t_present zone_total;
          absent := t_absent zone_total;
          on_leave := t_on_leave zone_total;
          attendance_percentage := pct |}.

(** [for row in data] of the subtotal pass; the state is
    [(current_zone, final_data)]. *)
Fixpoint subtotal_loop (zone_wise_data : gmap (option string) Totals)
    (data : list Row) (current_zone : option string) (final_data : list Row)
  : option (option string * list Row) :=
  match data with
  | [] => Some (current_zone, final_data)
  | row :: data' =>
      if decide (zone row ≠ current_zone) then
        final_data ←
          match current_zone with
          | Some cz =>
              zt ← zone_total_row zone_wise_data cz; Some (final_data ++ [zt])
          | None => Some final_data
          end;
        subtotal_loop zone_wise_data data' (zone row) (final_data ++ [row])
      else
        subtotal_loop zone_wise_data data' current_zone (final_data ++ [row])
  end.

Definition grand_total_row (data : list Row) : option Row :=
  let total_employees := sum_of total_employees data in
  let present := sum_of present data in
  let absent := sum_of absent data in
  let on_leave := sum_of on_leave data in
  let total_marked := (present + absent + on_leave)%Z in
  pct ← percentage present total_marked;
  Some {| zone := Some "Grand Total"; point := "";
          total_employees := total_employees; present := present;
          absent := absent; on_leave := on_leave;
          attendance_percentage := pct |}.

(** The sorted point rows with the zone totals put in. *)
Definition with_zone_totals (zone_wise_data : gmap (option string) Totals)
    (data : list Row) : option (list Row) :=
  '(current_zone, final_data) ← subtotal_loop zone_wise_data data None [];
  match current_zone with
  | Some cz =>
      if truthy_str current_zone then
        zt ← zone_total_row zone_wise_data cz; Some (final_data ++ [zt])
      else Some final_data
  | None => Some final_data
  end.

Definition get_point_wise_attendance (f : Filters) (s : Site) : option (list Row) :=
  '(data, zone_wise_data) ← collect_points f s;
  let data := sort_by_key sort_key data in
  grand_total ← grand_total_row data;
  final_data ← with_zone_totals zone_wise_data data;
  Some (final_data ++ [grand_total]).


(** [filters.companies], as [execute] sets it. *)
Definition with_companies (f : Filters) (s : Site) : Filters :=
  match company f with
  | Some c =>
      if bool_decide (c ≠ "") then
        {| company := company f;
           include_company_descendants := include_company_descendants f;
           date := date f; zones := zones f; points := points f;
           companies :=
             if include_company_descendants f then c :: get_descendants_of s c
             else [c] |}
      else f
  | None => f
  end.


(** *** What the loops compute *)

(** The value of [percentage], which never raises. *)
Definition pct_value (present total_marked : Z) : Q :=
  if bool_decide (total_marked ≠ 0%Z)
  then (inject_Z present / inject_Z total_marked * 100)%Q
  else 0%Q.

(** The sums over the point rows of zone [z]. *)
Definition zone_totals (data : list Row) (z : option string) : Totals :=
  let rows := filter (λ r, zone r = z) data in
  {| t_total_employees := sum_of total_employees rows;
     t_present := sum_of present rows;
     t_absent := sum_of absent rows;
     t_on_leave := sum_of on_leave rows |}.

(** The row appended for zone [current_zone] when its entry is [t]. *)
Definition total_row (current_zone : string) (t : Totals) : Row :=
  {| zone := Some (current_zone +:+ " Total"); point := "";
     total_employees := t_total_employees t;
     present := t_present t; absent := t_absent t; on_leave := t_on_leave t;
     attendance_percentage :=
       pct_value (t_present t) (t_present t + t_absent t + t_on_leave t) |}.

(** What holds of every point row. *)
Definition point_row_ok (r : Row) : Prop :=
  point r ≠ "" ∧ (0 ≤ present r)%Z ∧ (0 ≤ absent r)%Z ∧ (0 ≤ on_leave r)%Z ∧
  attendance_percentage r
  = pct_value (present r) (present r + absent r + on_leave r).

(** [zone_wise_data] has an entry for the zones of [data], with the sums
    of their rows. *)
Definition zone_wise_ok (data : list Row) (zwd : gmap (option string) Totals) : Prop :=
  ∀ z, zwd !! z = if decide (z ∈ zone <$> data)
                  then Some (zone_totals data z) else None.

(** The zones for which the subtotal loop appends a total, in order. *)
Fixpoint emitted (data : list Row) (current_zone : option string) : list string :=
  match data with
  | [] => []
  | row :: data' =>
      (if decide (zone row ≠ current_zone) then option_list current_zone else [])
      ++ emitted data' (zone row)
  end.

(** The rows the subtotal loop appends to [final_data], when [zrow z] is
    the total row of zone [z]. *)
Fixpoint weave (zrow : string → Row) (data : list Row) (current_zone : option string)
  : list Row :=
  match data with
  | [] => []
  | row :: data' =>
      (if decide (zone row ≠ current_zone)
       then zrow <$> option_list current_zone else [])
      ++ row :: weave zrow data' (zone row)
  end.

(** [current_zone] when the loop ends. *)
Definition last_zone (data : list Row) (current_zone : option string) : option string :=
  foldl (λ _ row, zone row) current_zone data.

(** The zone of the total appended after the loop, if there is one. *)
Definition tail_zone (data : list Row) : list string :=
  match last_zone data None with
  | Some cz => if bool_decide (cz ≠ "") then [cz] else []
  | None => []
  end.

(** The total row of zone [z] over the point rows [data], the grand
    total row, and the rows of the report before the grand total. *)
Definition zrow (data : list Row) (z : string) : Row :=
  total_row z (zone_totals data (Some z)).

Definition grand_row (data : list Row) : Row :=
  {| zone := Some "Grand Total"; point := "";
     total_employees := sum_of total_employees data;
     present := sum_of present data;
     absent := sum_of absent data;
     on_leave := sum_of on_leave data;
     attendance_percentage :=
       pct_value (sum_of present data)
         (sum_of present data + sum_of absent data + sum_of on_leave data) |}.

Definition report_body (data : list Row) : list Row :=
  weave (zrow data) data None ++ (zrow data <$> tail_zone data).

(** The point rows of zone [c] in the rows of a report. *)
Definition zone_point_rows (c : string) (rows : list Row) : list Row :=
  filter (λ x, point x ≠ "" ∧ zone x = Some c) rows.



(** The number of submitted Attendance rows of the date, for the active
    employees of point [pt], whose status is Present or Work From Home. *)
Definition present_or_wfh (f : Filters) (s : Site) (pt : string) : Z :=
  Z.of_nat (length (filter (λ a, att_status a ∈ ["Present"; "Work From Home"])
                      (attendance_rows f s (point_employees f s pt)))).


(** Example data: company [C], date [D]. *)
Definition emp (n pt : string) : Employee :=
  {| emp_name := n; emp_company := Some "C"; emp_status := Some "Active";
     emp_custom_point := Some pt; emp_designation := Some "Driver" |}.

Definition att (e st : string) : Attendance :=
  {| att_employee := e; att_attendance_date := "D"; att_status := st;
     att_docstatus := 1 |}.

Definition demo_filters : Filters :=
  {| company := Some "C"; include_company_descendants := false; date := "D";
     zones := []; points := []; companies := [] |}.

(** The scenario of the specification: points [P1] (two present, one
    absent) and [P2] (two on leave), both of zone [Z1]. *)
Definition scenario_site : Site := {|
  tabPoint := [ {| pt_name := "P1"; pt_zone_name := Some "Z1"; pt_is_active := 1 |};
                {| pt_name := "P2"; pt_zone_name := Some "Z1"; pt_is_active := 1 |} ];
  tabZone := [ {| zn_name := "Z1"; zn_zone_name := Some "Z1" |} ];
  tabEmployee := [ emp "E1" "P1"; emp "E2" "P1"; emp "E3" "P1";
                   emp "E4" "P2"; emp "E5" "P2" ];
  tabAttendance := [ att "E1" "Present"; att "E2" "Present"; att "E3" "Absent";
                     att "E4" "On Leave"; att "E5" "On Leave" ];
  get_descendants_of := λ _, []
|}.

(** One point, [P1] of zone [Z1]: two employees present, one working
    from home. *)
Definition wfh_site : Site := {|
  tabPoint := [ {| pt_name := "P1"; pt_zone_name := Some "Z1"; pt_is_active := 1 |} ];
  tabZone := [ {| zn_name := "Z1"; zn_zone_name := Some "Z1" |} ];
  tabEmployee := [ emp "E1" "P1"; emp "E2" "P1"; emp "E3" "P1" ];
  tabAttendance := [ att "E1" "Present"; att "E2" "Present";
                     att "E3" "Work From Home" ];
  get_descendants_of := λ _, []
|}.

(** One point that has no zone, with one employee, present. *)
Definition no_zone_site : Site := {|
  tabPoint := [ {| pt_name := "P1"; pt_zone_name := None; pt_is_active := 1 |} ];
  tabZone := [];
  tabEmployee := [ emp "E1" "P1" ];
  tabAttendance := [ att "E1" "Present" ];
  get_descendants_of := λ _, []
|}.

(** A point without zone and a point of zone [Z1]. *)
Definition two_zone_site : Site := {|
  tabPoint := [ {| pt_name := "P1"; pt_zone_name := None; pt_is_active := 1 |};
                {| pt_name := "P2"; pt_zone_name := Some "Z1"; pt_is_active := 1 |} ];
  tabZone := [ {| zn_name := "Z1"; zn_zone_name := Some "Z1" |} ];
  tabEmployee := [ emp "E1" "P1"; emp "E2" "P2" ];
  tabAttendance := [ att "E1" "Present"; att "E2" "Absent" ];
  get_descendants_of := λ _, []
|}.

(** *** The point rows, read off the tables *)

(** The row the loop builds for the group [(pt, total)] of [points]. *)
Definition row_of (f : Filters) (s : Site) (point_data : string * Z) : Row :=
  let counts := count_loop (attendance_counts f s (point_employees f s point_data.1)) in
  {| zone := default (Some "") (point_zone_map f s !! point_data.1);
     point := point_data.1;
     total_employees := point_data.2;
     present := counts.1.1; absent := counts.1.2; on_leave := counts.2;
     attendance_percentage :=
       pct_value counts.1.1 (counts.1.1 + counts.1.2 + counts.2) |}.

(** The groups of [points] that are not skipped. *)
Definition named_points (f : Filters) (s : Site) : list (string * Z) :=
  filter (λ pd, pd.1 ≠ "") (points_query f s).

(** The point rows of a report. *)
Definition point_rows (rows : list Row) : list Row :=
  filter (λ r, point r ≠ "") rows.


End point_wise_attendance.

(* ===================================================================== *)
(** * Theorems                                                           *)
(* ===================================================================== *)

Section employee_proofs.
Import employee.
Implicit Types (tbl : list Employee) (prev : list HRow) (x m : string).

Lemma anchor_names tbl emp x :
  x ∈ h_name <$> anchor tbl emp ↔ reports tbl x emp.
Proof.
  unfold anchor, reports. rewrite <- list_fmap_compose. rewrite list_elem_of_fmap.
  split.
  - intros (e & -> & [He Hin]%list_elem_of_filter). by exists e.
  - intros (e & Hin & <- & He). exists e. split; [done|].
    by apply list_elem_of_filter.
Qed.

Lemma recursive_member_names tbl prev x :
  x ∈ h_name <$> recursive_member tbl prev ↔
  ∃ m, m ∈ h_name <$> prev ∧ reports tbl x m.
Proof.
  unfold recursive_member, reports. rewrite list_elem_of_fmap. split.
  - intros (h & -> & Hh). apply list_elem_of_bind in Hh as (e & Hh & He).
    apply list_elem_of_bind in Hh as (eh & Hh & Heh).
    case_decide as Hr; [|by apply elem_of_nil in Hh].
    apply list_elem_of_singleton in Hh as ->. simpl.
    exists (h_name eh). split; [by apply list_elem_of_fmap_2|by exists e].
  - intros (m & (eh & -> & Heh)%list_elem_of_fmap & e & He & <- & Hr).
    eexists. split; [|apply list_elem_of_bind; exists e; split; [|done];
      apply list_elem_of_bind; exists eh; split; [|done];
      rewrite decide_True by done; apply list_elem_of_singleton; reflexivity].
    done.
Qed.

Lemma recursive_member_nil tbl : recursive_member tbl [] = [].
Proof. unfold recursive_member. induction tbl as [|e tbl IH]; [done|]. by simpl. Qed.

Lemma rounds_nil tbl k : Nat.iter k (recursive_member tbl) [] = [].
Proof. induction k as [|k IH]; [done|]. simpl. by rewrite IH, recursive_member_nil. Qed.

(** The names of round [k] are the employees [k + 1] steps below. *)
Lemma round_names tbl emp k x :
  x ∈ h_name <$> Nat.iter k (recursive_member tbl) (anchor tbl emp) ↔
  nsteps (reports tbl) (S k) x emp.
Proof.
  revert x. induction k as [|k IH]; intros x; simpl.
  - rewrite anchor_names. split; [apply nsteps_once|apply nsteps_once_inv].
  - rewrite recursive_member_names. split.
    + intros (m & Hm & Hr). apply IH in Hm. by eapply nsteps_l.
    + intros Hn. inversion Hn as [|? ? m ? Hr Hm]; subst.
      exists m. split; [by apply IH|done].
Qed.

(** The query returns the rows of the rounds it had fuel for. *)
Lemma emp_hierarchy_rounds fuel tbl prev h :
  h ∈ emp_hierarchy fuel tbl prev ↔
  ∃ k, k < fuel ∧ h ∈ Nat.iter k (recursive_member tbl) prev.
Proof.
  revert prev. induction fuel as [|fuel IH]; intros prev; simpl.
  - split; [by intros ?%elem_of_nil|intros (k & ? & _); lia].
  - destruct prev as [|h0 prev].
    + split; [by intros ?%elem_of_nil|].
      intros (k & _ & Hk). by rewrite rounds_nil in Hk.
    + rewrite elem_of_app, IH. split.
      * intros [Hin|(k & Hk & Hin)].
        -- exists 0. split; [lia|done].
        -- exists (S k). split; [lia|]. by rewrite Nat.iter_succ_r.
      * intros ([|k] & Hk & Hin); [by left|right].
        exists k. split; [lia|]. by rewrite Nat.iter_succ_r in Hin.
Qed.

(** Along a chain of [reports_to] links every employee met is the name
    of a row, and without a cycle no employee is met twice. *)
Lemma chain_sources tbl k x y :
  acyclic tbl → nsteps (reports tbl) k x y →
  ∃ l : list string, length l = k ∧ NoDup l ∧
    ∀ z, z ∈ l → rtc (reports tbl) x z ∧ z ∈ name <$> tbl.
Proof.
  intros Hac. induction 1 as [x|k x x' y Hr Hn (l & Hlen & Hnd & Hl)].
  - exists []. split_and!; [done|constructor|by intros ? ?%elem_of_nil].
  - exists (x :: l). split_and!.
    + simpl. by rewrite Hlen.
    + constructor; [|done]. intros Hx. apply Hl in Hx as [Hx _].
      apply (Hac x). eapply tc_rtc_r; [by apply tc_once|done].
    + intros z [->|Hz]%elem_of_cons.
      * split; [done|]. destruct Hr as (e & He & <- & _).
        by apply list_elem_of_fmap_2.
      * apply Hl in Hz as [Hz ?]. split; [|done]. by eapply rtc_l.
Qed.

Lemma chain_bound tbl k x y :
  acyclic tbl → nsteps (reports tbl) k x y → k ≤ length tbl.
Proof.
  intros Hac Hn. destruct (chain_sources _ _ _ _ Hac Hn) as (l & <- & Hnd & Hl).
  rewrite <- (length_fmap name tbl). apply submseteq_length.
  apply NoDup_submseteq; [done|]. intros z Hz. by apply Hl.
Qed.

(** What the recursive query returns on an acyclic table. *)
Lemma emp_hierarchy_subordinates fuel tbl emp x :
  acyclic tbl → length tbl ≤ fuel →
  x ∈ h_name <$> emp_hierarchy fuel tbl (anchor tbl emp) ↔ subordinate tbl x emp.
Proof.
  intros Hac Hfuel. unfold subordinate. rewrite tc_nsteps, list_elem_of_fmap. split.
  - intros (h & -> & (k & Hk & Hin)%emp_hierarchy_rounds).
    exists (S k). split; [lia|]. apply round_names. by apply list_elem_of_fmap_2.
  - intros ([|k] & Hpos & Hn); [lia|].
    pose proof (chain_bound _ _ _ _ Hac Hn).
    apply round_names, list_elem_of_fmap in Hn as (h & -> & Hin).
    exists h. split; [done|]. apply emp_hierarchy_rounds. exists k. split; [lia|done].
Qed.

(** A table whose links all go to a smaller rank has no cycle. *)
Lemma acyclic_by_rank tbl (rank : string → nat) :
  Forall (λ e, ∀ m, reports_to e = Some m → rank m < rank (name e)) tbl →
  acyclic tbl.
Proof.
  intros Hrank. assert (∀ x y, tc (reports tbl) x y → rank y < rank x) as Htc.
  { assert (∀ x y, reports tbl x y → rank y < rank x) as Hstep.
    { intros x y (e & He & <- & Hr). rewrite Forall_forall in Hrank. by eapply Hrank. }
    induction 1 as [x y Hxy|x y z Hxy _ IH]; [by apply Hstep|].
    apply Hstep in Hxy. lia. }
  intros x Hx. apply Htc in Hx. lia.
Qed.

(** The relation [reports] looks at the rows, not at their order. *)
Lemma subordinate_perm tbl tbl' x m :
  tbl ≡ₚ tbl' → subordinate tbl x m → subordinate tbl' x m.
Proof.
  intros Hp. unfold subordinate. apply (tc_congruence id); simpl.
  intros a b (e & He & Hn & Hr). exists e. by rewrite <- Hp.
Qed.

Lemma acyclic_perm tbl tbl' : tbl ≡ₚ tbl' → acyclic tbl → acyclic tbl'.
Proof.
  intros Hp Hac x Hx. apply (Hac x). by eapply subordinate_perm.
Qed.

(** C1: for a user who is not an administrator and has an Employee record
    (found under a non-empty name), on a table whose [reports_to] links
    have no cycle and with enough rounds for the recursive query, the
    condition returned is [status = 'Active' and name in (...)] where the
    names listed are exactly the user's own employee id and all its direct
    and indirect subordinates; the same names are listed whatever the order
    of the rows of the table. *)
Theorem C1_in_list_is_self_and_subordinates (s : Site) (user emp : string) :
  ¬ is_admin s user →
  get_value_name (tabEmployee s) user = Some emp →
  emp ≠ "" →
  acyclic (tabEmployee s) →
  length (tabEmployee s) ≤ max_recursive_iterations s →
  let names := subordinate_names s emp in
  conditions_for s user = [StatusActive; NameIn names] ∧
  get_permission_query_conditions s user
    = "status = 'Active' and name in ('" +:+ join "','" names +:+ "')" ∧
  (∀ x, x ∈ names ↔ x = emp ∨ subordinate (tabEmployee s) x emp) ∧
  (∀ tbl', tbl' ≡ₚ tabEmployee s →
     ∀ x, x ∈ subordinate_names
            {| tabEmployee := tbl'; get_roles := get_roles s;
               max_recursive_iterations := max_recursive_iterations s |} emp
          ↔ x ∈ names).
Proof.
  intros Hadm Hemp Hne Hac Hfuel names.
  assert (conditions_for s user = [StatusActive; NameIn names]) as Hc.
  { unfold conditions_for. rewrite Hemp. simpl.
    rewrite (bool_decide_eq_false_2 ("System Manager" ∈ get_roles s user))
      by (intros ?; apply Hadm; by left).
    rewrite (bool_decide_eq_false_2 (user = "Administrator"))
      by (intros ?; apply Hadm; by right).
    simpl. by rewrite bool_decide_eq_true_2. }
  assert (∀ tbl fuel x, acyclic tbl → length tbl ≤ fuel →
    x ∈ emp :: (h_name <$> emp_hierarchy fuel tbl (anchor tbl emp))
    ↔ x = emp ∨ subordinate tbl x emp) as Hchar.
  { intros tbl fuel x ? ?. by rewrite elem_of_cons, emp_hierarchy_subordinates. }
  split_and!.
  - done.
  - unfold get_permission_query_conditions. by rewrite Hc.
  - intros x. by apply Hchar.
  - intros tbl' Hp x. unfold names, subordinate_names. simpl.
    rewrite !Hchar; [|done|done|by eapply acyclic_perm|by rewrite Hp].
    split; (intros [?|?]; [by left|right]); by eapply subordinate_perm.
Qed.

Lemma C1_witness :
  let names := ["E-lead"; "E-dev1"; "E-dev2"] in
  subordinate_names demo_site "E-lead" = names ∧
  get_permission_query_conditions demo_site "lead@x"
    = "status = 'Active' and name in ('E-lead','E-dev1','E-dev2')" ∧
  (∀ x, x ∈ names ↔
        x = "E-lead" ∨ subordinate (tabEmployee demo_site) x "E-lead").
Proof.
  pose proof (C1_in_list_is_self_and_subordinates demo_site "lead@x" "E-lead") as H.
  simpl. split; [reflexivity|]. split; [reflexivity|].
  apply H.
  - intros [Hr| ?]; [|done]. vm_compute in Hr. by apply list_elem_of_singleton in Hr.
  - reflexivity.
  - done.
  - apply (acyclic_by_rank _ (λ x, if bool_decide (x = "E-ceo") then 0
                                    else if bool_decide (x = "E-lead") then 1 else 2)).
    simpl. repeat (apply Forall_cons_2; [simpl; intros m [= <-]; vm_compute; lia|]).
    apply Forall_nil_2.
  - simpl. lia.
Defined.

(** C3 as stated fails: the condition returned to an administrator is
    [status = 'Active'], and the row of an employee who has left is in the
    table and is excluded by it. *)
Lemma C3_counterexample :
  let old := mk "E-old" None (Some "E-ceo") "Left" in
  is_admin demo_site "Administrator" ∧
  get_permission_query_conditions demo_site "Administrator" = "status = 'Active'" ∧
  old ∈ tabEmployee demo_site ∧
  visible (conditions_for demo_site "Administrator") old = false.
Proof.
  split_and!; [by right|reflexivity| |reflexivity].
  simpl. do 4 apply list_elem_of_further. apply list_elem_of_here.
Qed.

(** C3, amended: for a caller who holds the System Manager role or is
    [Administrator], or for whom no Employee row is found, the condition
    returned is the base condition [status = 'Active'] alone, with no
    restriction on names: a row is visible exactly when its status is
    Active. *)
Theorem C3_base_condition_only (s : Site) (user : string) :
  is_admin s user ∨ get_value_name (tabEmployee s) user = None →
  get_permission_query_conditions s user = "status = 'Active'" ∧
  ∀ e, visible (conditions_for s user) e = true ↔ status e = Some "Active".
Proof.
  intros H.
  assert (conditions_for s user = [StatusActive]) as Hc.
  { unfold conditions_for. destruct H as [[Hr|Hu]|Hnone].
    - by rewrite (bool_decide_eq_true_2 _ Hr).
    - rewrite (bool_decide_eq_true_2 _ Hu). by rewrite orb_true_r.
    - rewrite Hnone. by destruct (_ || _). }
  unfold get_permission_query_conditions. rewrite Hc. split; [done|].
  intros e. simpl. rewrite andb_true_r. apply bool_decide_eq_true.
Qed.

Lemma C3_witness :
  get_permission_query_conditions demo_site "nobody@x" = "status = 'Active'" ∧
  ∀ e, visible (conditions_for demo_site "nobody@x") e = true
       ↔ status e = Some "Active".
Proof.
  apply (C3_base_condition_only demo_site "nobody@x"). right. reflexivity.
Defined.

End employee_proofs.

Section route_proofs.
Import route.

Lemma starts_with_spec (p s : string) :
  starts_with p s = true ↔ ∃ t, s = p +:+ t.
Proof.
  revert s. induction p as [|a p IH]; intros s; simpl.
  - split; [by exists s|done].
  - destruct s as [|b s].
    + split; [done|by intros (t & ?)].
    + rewrite andb_true_iff, bool_decide_eq_true, IH. split.
      * intros (-> & t & ->). by exists t.
      * intros (t & [= -> ->]). split; [done|by exists t].
Qed.

(** [contains sub s] holds exactly when [s] is [pre + sub + post]. *)
Lemma contains_spec (sub s : string) :
  contains sub s = true ↔ ∃ pre post, s = pre +:+ sub +:+ post.
Proof.
  induction s as [|b s IH]; simpl.
  - rewrite orb_false_r, starts_with_spec. split.
    + intros (t & ->). by exists "", t.
    + intros ([|??] & post & H); [by exists post|done].
  - rewrite orb_true_iff, starts_with_spec, IH. split.
    + intros [(t & ->)|(pre & post & ->)]; [by exists "", t|].
      by exists (String b pre), post.
    + intros ([|c pre] & post & H).
      * left. by exists post.
      * right. injection H as -> ->. by exists pre, post.
Qed.

Lemma lower_ascii_app (s t : string) :
  lower_ascii (s +:+ t) = lower_ascii s +:+ lower_ascii t.
Proof.
  induction s as [|c s IH]; [done|].
  change (String c s +:+ t) with (String c (s +:+ t)).
  cbn [lower_ascii]. by rewrite IH.
Qed.

(** With the ASCII [lower], the test of the hook holds for every name
    that has a part whose lower case is [default]. *)
Lemma contains_default_any_case (pre mid post : string) :
  lower_ascii mid = "default" →
  contains "default" (lower_ascii (pre +:+ mid +:+ post)) = true.
Proof.
  intros Hmid. apply contains_spec.
  exists (lower_ascii pre), (lower_ascii post).
  by rewrite !lower_ascii_app, Hmid.
Qed.

(** C10: when the [route_name] of the inserted route, put in lower case,
    contains [default], the hook returns at once: no Job Opening is
    created, and the Job Opening table, like the rest of the site, is as
    it was. *)
Theorem C10_default_route_leaves_job_openings (fw : Framework) (doc : RouteDoc)
    (method : string) (st : Site) (rn : string) :
  route_name doc = Some rn →
  contains "default" (str_lower fw rn) = true →
  after_insert fw doc method st = st ∧
  tabJobOpening (after_insert fw doc method st) = tabJobOpening st.
Proof.
  intros Hrn Hdef. unfold after_insert. by rewrite Hrn, Hdef.
Qed.

Lemma C10_witness :
  let doc := {| name := "R-0001"; route_name := Some "Default North";
                branch := None |} in
  after_insert demo_fw doc "after_insert" empty_site = empty_site ∧
  tabJobOpening (after_insert demo_fw doc "after_insert" empty_site) = [].
Proof.
  apply (C10_default_route_leaves_job_openings demo_fw _ "after_insert"
           empty_site "Default North"); reflexivity.
Defined.

(** A route whose name has no [default] in it does get its Job Opening. *)
Example after_insert_other_route :
  let doc := {| name := "R-0002"; route_name := Some "North";
                branch := Some "Hyd" |} in
  length (tabJobOpening (after_insert demo_fw doc "after_insert" empty_site)) = 1.
Proof. reflexivity. Qed.

End route_proofs.

Section farmer_visit_api_proofs.
Import farmer_visit_api.

(** The image block never touches the Farmer Details table. *)
Lemma handle_image_farmers (fw : Framework) (detail : gmap string Value)
    (st st' : Site) (r : Envelope + gmap string Value) :
  handle_image fw detail st = inl (st', r) →
  tabFarmerDetails st' = tabFarmerDetails st.
Proof.
  unfold handle_image. destruct (detail !! "visit_image") as [img|].
  - destruct (handle_base64_image _ _ _ _ _) as [files [res|e|e]].
    + destruct (res !! "file_url"); [|done]. by intros [= <- _].
    + by intros [= <- _].
    + done.
  - by intros [= <- _].
Qed.

(** Nor does the Visit Tracker block, whatever its outcome. *)
Lemma create_visit_farmers (fw : Framework) (farmer_name employee : Value)
    (detail : gmap string Value) (st : Site) :
  tabFarmerDetails (create_visit fw farmer_name employee detail st).1
  = tabFarmerDetails st.
Proof.
  unfold create_visit. destruct (insert_visit _ _ _) as [tbl [e|visit_name]]; [done|].
  by destruct (submit_visit _ _ _) as [tbl' [e|]].
Qed.

Lemma create_visit_failed (fw : Framework) (farmer_name employee : Value)
    (detail : gmap string Value) (st : Site) (e : Exc) :
  visit_fails fw (tabVisitTracker st) (visit_doc farmer_name employee detail) e →
  (create_visit fw farmer_name employee detail st).2
  = error_envelope ("Failed to create visit: " +:+ exc_str e)
      "VISIT_CREATION_FAILED" 400 ∧
  response_http_status_code (create_visit fw farmer_name employee detail st).1
  = Some 400%Z.
Proof.
  unfold create_visit.
  intros [(tbl' & ->)|(tbl' & visit_name & tbl'' & -> & ->)]; done.
Qed.

(** C9: when the token is valid, the Farmer Details record is created
    from [farmer_create_detail] and the image block lets the request go
    on, a failure of the Visit Tracker insert or of its submit makes the
    endpoint return the error response with code [VISIT_CREATION_FAILED]
    and status 400, and the Farmer Details table is left as the insert of
    the farmer made it: the new farmer is not removed. *)
Theorem C9_visit_failure_keeps_farmer (fw : Framework) (headers : string)
    (farmer_name : option string) (farmer_create_detail visit_tracker_detail : gmap string Value)
    (st : Site) (result : gmap string Value) (employee : Value)
    (farmers : list (string * gmap string Value)) (new_name : string)
    (st2 : Site) (detail2 : gmap string Value) (e : Exc) :
  verify_dp_token fw headers = Valid result →
  result !! "employee" = Some employee →
  farmer_create_detail ≠ ∅ →
  insert_farmer fw (tabFarmerDetails st) (farmer_doc employee farmer_create_detail)
    = (farmers, inr new_name) →
  handle_image fw visit_tracker_detail (with_farmers farmers st) = inl (st2, inr detail2) →
  visit_fails fw (tabVisitTracker st2) (visit_doc (VStr new_name) employee detail2) e →
  let out := create_farmer_visit fw headers farmer_name (Some farmer_create_detail)
               visit_tracker_detail st in
  code out.2 = "VISIT_CREATION_FAILED" ∧
  http_status_code out.2 = 400%Z ∧
  success out.2 = false ∧
  response_http_status_code out.1 = Some 400%Z ∧
  tabFarmerDetails out.1 = farmers.
Proof.
  intros Htok Hemp Hne Hfarmer Himg Hfail out. subst out.
  unfold create_farmer_visit. rewrite Htok, Hemp.
  assert (truthy_dict (Some farmer_create_detail) = true) as ->
    by by apply bool_decide_eq_true_2.
  rewrite andb_false_r, Hfarmer, Himg.
  destruct (create_visit_failed fw (VStr new_name) employee detail2 st2 e Hfail)
    as [-> ->].
  rewrite create_visit_farmers, (handle_image_farmers _ _ _ _ _ Himg). done.
Qed.

Lemma C9_witness :
  let detail : gmap string Value := {[ "farmer_name" := VStr "Ravi" ]} in
  let visit : gmap string Value := {[ "visit_date" := VStr "2025-01-01" ]} in
  let out := create_farmer_visit demo_fw "Bearer t" None (Some detail) visit empty_site in
  code out.2 = "VISIT_CREATION_FAILED" ∧
  http_status_code out.2 = 400%Z ∧
  success out.2 = false ∧
  response_http_status_code out.1 = Some 400%Z ∧
  tabFarmerDetails out.1
  = [("FARMER-Ravi", farmer_doc (VStr "EMP-0001") detail)].
Proof.
  intros detail visit.
  apply (C9_visit_failure_keeps_farmer demo_fw "Bearer t" None detail visit empty_site
           {[ "employee" := VStr "EMP-0001" ]} (VStr "EMP-0001")
           [("FARMER-Ravi", farmer_doc (VStr "EMP-0001") detail)] "FARMER-Ravi"
           (with_farmers [("FARMER-Ravi", farmer_doc (VStr "EMP-0001") detail)] empty_site)
           visit {| exc_class := "MandatoryError"; exc_str := "purpose" |}).
  - reflexivity.
  - reflexivity.
  - intros H. apply (f_equal (λ m : gmap string Value, m !! "farmer_name")) in H.
    vm_compute in H. discriminate.
  - reflexivity.
  - reflexivity.
  - right. eexists _, _, _. split; reflexivity.
Defined.

(** The same request with a visit that can be submitted succeeds. *)
Example create_farmer_visit_ok :
  let detail : gmap string Value := {[ "farmer_name" := VStr "Ravi" ]} in
  let visit : gmap string Value :=
    <[ "purpose" := VStr "survey" ]> {[ "visit_date" := VStr "2025-01-01" ]} in
  let out := create_farmer_visit demo_fw "Bearer t" None (Some detail) visit empty_site in
  code out.2 = "VISIT_CREATED" ∧ response_http_status_code out.1 = Some 201%Z.
Proof. split; reflexivity. Qed.

(** Neither [farmer_name] nor [farmer_create_detail]: 400, INVALID_INPUT. *)
Example create_farmer_visit_invalid_input :
  let visit : gmap string Value := {[ "visit_date" := VStr "2025-01-01" ]} in
  let out := create_farmer_visit demo_fw "Bearer t" None None visit empty_site in
  code out.2 = "INVALID_INPUT" ∧ http_status_code out.2 = 400%Z ∧ out.1 = set_status 400 empty_site.
Proof. split_and!; reflexivity. Qed.

End farmer_visit_api_proofs.

(** ** Sums, string order and the stable sort *)

Section python_helpers_proofs.

Lemma sum_of_foldr {A} (g : A → Z) (l : list A) :
  sum_of g l = foldr (λ x acc, g x + acc)%Z 0%Z l.
Proof.
  unfold sum_of.
  assert (∀ a, foldl (λ acc x, acc + g x) a l
               = a + foldr (λ x acc, g x + acc) 0 l)%Z as H.
  { induction l as [|x l IH]; intros a; simpl; [lia|]. rewrite IH. lia. }
  rewrite H. lia.
Qed.

Lemma sum_of_nil {A} (g : A → Z) : sum_of g [] = 0%Z.
Proof. done. Qed.

Lemma sum_of_cons {A} (g : A → Z) (x : A) (l : list A) :
  sum_of g (x :: l) = (g x + sum_of g l)%Z.
Proof. by rewrite !sum_of_foldr. Qed.

Lemma sum_of_app {A} (g : A → Z) (l1 l2 : list A) :
  sum_of g (l1 ++ l2) = (sum_of g l1 + sum_of g l2)%Z.
Proof.
  induction l1 as [|x l1 IH]; simpl; [by rewrite sum_of_nil|].
  rewrite !sum_of_cons, IH. lia.
Qed.

Lemma sum_of_perm {A} (g : A → Z) (l1 l2 : list A) :
  l1 ≡ₚ l2 → sum_of g l1 = sum_of g l2.
Proof.
  induction 1 as [|x l1 l2 _ IH|x y l|l1 l2 l3 _ IH1 _ IH2];
    rewrite ?sum_of_cons; [done|by rewrite IH|lia|congruence].
Qed.

Lemma sum_of_nonneg {A} (g : A → Z) (l : list A) :
  Forall (λ x, 0 ≤ g x)%Z l → (0 ≤ sum_of g l)%Z.
Proof.
  induction 1 as [|x l Hx _ IH]; [by rewrite sum_of_nil|].
  rewrite sum_of_cons. lia.
Qed.

Lemma str_lt_spec (s1 s2 : string) :
  str_lt s1 s2 = true ↔ (s1 ≤ s2)%string ∧ s1 ≠ s2.
Proof.
  unfold str_lt. by rewrite andb_true_iff, !bool_decide_eq_true.
Qed.

Lemma str_lt_false (s1 s2 : string) :
  str_lt s1 s2 = false ↔ (s2 ≤ s1)%string.
Proof.
  rewrite <- not_true_iff_false, str_lt_spec. split.
  - intros H. destruct (total String.le s1 s2) as [Hle|Hle]; [|done].
    destruct (decide (s1 = s2)) as [->|Hne]; [done|]. destruct H. done.
  - intros Hle [Hle' Hne]. apply Hne. by apply (anti_symm String.le).
Qed.


Lemma key_lt_false (k1 k2 : string * string) :
  key_lt k2 k1 = false ↔ lex_le k1 k2.
Proof.
  unfold key_lt, lex_le. destruct (decide (k2.1 = k1.1)) as [Heq|Hne];
    rewrite str_lt_false; split.
  - intros Hle. by right.
  - intros [[Hn _]|[_ Hle]]; [congruence|done].
  - intros Hle. left. split; [congruence|done].
  - intros [[_ Hle]|[Heq _]]; [done|congruence].
Qed.

Lemma key_lt_true (k1 k2 : string * string) :
  key_lt k1 k2 = true → lex_le k1 k2 ∧ k1 ≠ k2.
Proof.
  unfold key_lt, lex_le. destruct (decide (k1.1 = k2.1)) as [Heq|Hne];
    rewrite str_lt_spec; intros [Hle Hn].
  - split; [by right|]. by intros ->.
  - split; [by left|]. by intros ->.
Qed.

Global Instance lex_le_trans : Transitive lex_le.
Proof.
  intros [a1 a2] [b1 b2] [c1 c2]. unfold lex_le; simpl.
  intros [[Hn1 H1]|[-> H1]] [[Hn2 H2]|[-> H2]].
  - left. split; [|by etrans]. intros ->. apply Hn1. by apply (anti_symm String.le).
  - by left.
  - by left.
  - right. split; [done|by etrans].
Qed.

Section sort.
Context {A : Type} (key : A → string * string).

Local Instance key_le_trans : Transitive (key_le key).
Proof. intros x y z. unfold key_le. apply lex_le_trans. Qed.

Lemma insert_by_key_perm (x : A) (l : list A) :
  insert_by_key key x l ≡ₚ x :: l.
Proof.
  induction l as [|y l IH]; simpl; [done|].
  destruct (key_lt (key y) (key x)); [|done].
  rewrite IH. apply Permutation_swap.
Qed.

Lemma sort_by_key_perm (l : list A) : sort_by_key key l ≡ₚ l.
Proof.
  induction l as [|x l IH]; simpl; [done|].
  by rewrite insert_by_key_perm, IH.
Qed.

Lemma insert_by_key_HdRel (a x : A) (l : list A) :
  key_le key a x → HdRel (key_le key) a l → HdRel (key_le key) a (insert_by_key key x l).
Proof.
  intros Hax Hal. destruct l as [|y l]; simpl; [by constructor|].
  destruct (key_lt (key y) (key x)); constructor; [|done].
  by inversion Hal.
Qed.

Lemma insert_by_key_Sorted (x : A) (l : list A) :
  Sorted (key_le key) l → Sorted (key_le key) (insert_by_key key x l).
Proof.
  induction 1 as [|y l Hs IH Hhd]; simpl; [by repeat constructor|].
  destruct (key_lt (key y) (key x)) eqn:Hlt.
  - constructor; [done|]. apply insert_by_key_HdRel; [|done].
    by apply key_lt_true in Hlt as [? _].
  - constructor; [by constructor|]. constructor. by apply key_lt_false.
Qed.

Lemma sort_by_key_StronglySorted (l : list A) :
  StronglySorted (key_le key) (sort_by_key key l).
Proof.
  apply Sorted_StronglySorted; [apply _|].
  induction l as [|x l IH]; simpl; [constructor|].
  by apply insert_by_key_Sorted.
Qed.

(** The sort is stable: the elements that share a key keep their order. *)
Lemma insert_by_key_stable (k : string * string) (x : A) (l : list A) :
  filter (λ y, key y = k) (insert_by_key key x l)
  = filter (λ y, key y = k) (x :: l).
Proof.
  induction l as [|y l IH]; simpl; [done|].
  destruct (key_lt (key y) (key x)) eqn:Hlt; [|done].
  apply key_lt_true in Hlt as [_ Hne].
  rewrite !filter_cons, IH, !filter_cons.
  destruct (decide (key y = k)), (decide (key x = k)); congruence.
Qed.

Lemma sort_by_key_stable (k : string * string) (l : list A) :
  filter (λ y, key y = k) (sort_by_key key l) = filter (λ y, key y = k) l.
Proof.
  induction l as [|x l IH]; simpl; [done|].
  by rewrite insert_by_key_stable, !filter_cons, IH.
Qed.

Lemma lex_le_antisym (k1 k2 : string * string) :
  lex_le k1 k2 → lex_le k2 k1 → k1 = k2.
Proof.
  destruct k1 as [a1 a2], k2 as [b1 b2]. unfold lex_le; simpl.
  intros [[Hn H1]|[-> H1]] [[Hn' H2]|[Heq H2]]; try congruence.
  - destruct Hn. by apply (anti_symm String.le).
  - f_equal. by apply (anti_symm String.le).
Qed.

(** A sorted list is determined by the elements it has under each key
    and their order: whatever algorithm a stable sort uses, its result is
    the list [sort_by_key] gives. *)
Lemma sorted_stable_unique (l1 l2 : list A) :
  StronglySorted (key_le key) l1 → StronglySorted (key_le key) l2 →
  (∀ k, filter (λ y, key y = k) l1 = filter (λ y, key y = k) l2) →
  l1 = l2.
Proof.
  intros Hs1. revert l2. induction Hs1 as [|x l1 Hs1 IH Hx]; intros l2 Hs2 Hf.
  - destruct l2 as [|y l2]; [done|]. specialize (Hf (key y)).
    by rewrite filter_nil, filter_cons_True in Hf.
  - destruct l2 as [|y l2].
    { specialize (Hf (key x)). by rewrite filter_nil, filter_cons_True in Hf. }
    apply StronglySorted_inv in Hs2 as [Hs2 Hy].
    assert (key x = key y) as Hk.
    { apply lex_le_antisym.
      - assert (y ∈ x :: l1) as [->|Hin]%elem_of_cons.
        { eapply list_elem_of_filter. rewrite (Hf (key y)), filter_cons_True by done.
          apply list_elem_of_here. }
        + apply key_lt_false. unfold key_lt. rewrite decide_True by done.
          by apply str_lt_false.
        + rewrite Forall_forall in Hx. by apply Hx.
      - assert (x ∈ y :: l2) as [->|Hin]%elem_of_cons.
        { eapply list_elem_of_filter. rewrite <- (Hf (key x)), filter_cons_True by done.
          apply list_elem_of_here. }
        + apply key_lt_false. unfold key_lt. rewrite decide_True by done.
          by apply str_lt_false.
        + rewrite Forall_forall in Hy. by apply Hy. }
    pose proof (Hf (key x)) as Hfx.
    rewrite filter_cons_True, (filter_cons_True _ y) in Hfx by done.
    injection Hfx as <- Hfx. f_equal. apply IH; [done|]. intros k.
    destruct (decide (key x = k)) as [<-|Hne]; [done|].
    specialize (Hf k). by rewrite !filter_cons_False in Hf.
Qed.

Lemma sort_by_key_unique (l l' : list A) :
  StronglySorted (key_le key) l' →
  (∀ k, filter (λ y, key y = k) l' = filter (λ y, key y = k) l) →
  l' = sort_by_key key l.
Proof.
  intros Hs Hf. apply sorted_stable_unique;
    [done|apply sort_by_key_StronglySorted|].
  intros k. by rewrite sort_by_key_stable.
Qed.

End sort.
End python_helpers_proofs.

(** ** The attendance report *)

Section point_wise_attendance_proofs.
Import point_wise_attendance.
Implicit Types (data : list Row) (zwd : gmap (option string) Totals)
  (r : Row) (z : option string) (f : Filters) (s : Site).

Lemma percentage_value (p m : Z) : percentage p m = Some (pct_value p m).
Proof.
  unfold percentage, pct_value, py_truediv. case_bool_decide as Hm; [|done].
  by rewrite bool_decide_eq_false_2.
Qed.

Lemma group_count_nonneg (keys : list string) :
  Forall (λ c, 0 ≤ c.2)%Z (group_count keys).
Proof.
  unfold group_count. apply Forall_fmap, Forall_forall. intros k _. simpl. lia.
Qed.

Lemma count_steps_nonneg (l : list (string * Z)) (acc : Z * Z * Z) :
  (0 ≤ acc.1.1 ∧ 0 ≤ acc.1.2 ∧ 0 ≤ acc.2)%Z →
  Forall (λ c, 0 ≤ c.2)%Z l →
  (0 ≤ (foldl count_step acc l).1.1 ∧ 0 ≤ (foldl count_step acc l).1.2
   ∧ 0 ≤ (foldl count_step acc l).2)%Z.
Proof.
  revert acc. induction l as [|[st c] l IH]; intros acc Hacc Hl; simpl; [done|].
  inversion Hl as [|? ? Hc Hl']; subst. apply IH; [|done].
  destruct acc as [[p a] o]. simpl in *. unfold count_step.
  repeat case_bool_decide; simpl; lia.
Qed.

Lemma count_loop_nonneg (l : list (string * Z)) :
  Forall (λ c, 0 ≤ c.2)%Z l →
  (0 ≤ (count_loop l).1.1 ∧ 0 ≤ (count_loop l).1.2 ∧ 0 ≤ (count_loop l).2)%Z.
Proof. intros Hl. by apply count_steps_nonneg. Qed.

Lemma zone_totals_snoc data r z :
  zone_totals (data ++ [r]) z
  = if decide (zone r = z)
    then add_point (total_employees r) (present r) (absent r) (on_leave r)
           (zone_totals data z)
    else zone_totals data z.
Proof.
  unfold zone_totals, add_point. rewrite filter_app, filter_cons, filter_nil.
  destruct (decide (zone r = z)); simpl.
  - by rewrite !sum_of_app, !sum_of_cons, !sum_of_nil, !Z.add_0_r.
  - by rewrite app_nil_r.
Qed.

Lemma zone_totals_absent data z :
  z ∉ zone <$> data → zone_totals data z = no_totals.
Proof.
  intros Hz. unfold zone_totals.
  assert (filter (λ r, zone r = z) data = []) as ->; [|done].
  induction data as [|r data IH]; [done|].
  rewrite fmap_cons, not_elem_of_cons in Hz. destruct Hz as [Hr Hz].
  rewrite filter_cons_False by done. by apply IH.
Qed.

Lemma zone_totals_perm data data' z :
  data ≡ₚ data' → zone_totals data z = zone_totals data' z.
Proof.
  intros Hp. unfold zone_totals.
  assert (filter (λ r, zone r = z) data ≡ₚ filter (λ r, zone r = z) data') as Hf
    by by rewrite Hp.
  by rewrite !(sum_of_perm _ _ _ Hf).
Qed.

(** One round of the loop over the points keeps the rows and
    [zone_wise_data] in step, and raises nothing. *)
Lemma point_step_ok f s data zwd (pd : string * Z) :
  Forall point_row_ok data → zone_wise_ok data zwd →
  ∃ data' zwd', point_step f s (data, zwd) pd = Some (data', zwd') ∧
    Forall point_row_ok data' ∧ zone_wise_ok data' zwd'.
Proof.
  intros Hrows Hzwd. destruct pd as [pt total]. unfold point_step.
  case_bool_decide as Hpt; [by eauto|].
  set (z0 := default (Some "") (point_zone_map f s !! pt)).
  pose proof (count_loop_nonneg _
    (group_count_nonneg (att_status <$> attendance_rows f s (point_employees f s pt))))
    as Hnn.
  fold (attendance_counts f s (point_employees f s pt)) in Hnn.
  destruct (count_loop _) as [[p a] o]. simpl in Hnn.
  rewrite percentage_value. simpl.
  eexists _, _. split; [done|]. split.
  - apply Forall_app. split; [done|]. apply Forall_singleton.
    unfold point_row_ok; simpl. split_and!; try done; lia.
  - intros z. rewrite lookup_alter, fmap_app, zone_totals_snoc. simpl.
    pose proof (Hzwd z0) as Hz0. pose proof (Hzwd z) as Hz.
    destruct (decide (z0 = z)) as [<-|Hne].
    + rewrite decide_True by (apply elem_of_app; right; apply list_elem_of_here).
      destruct (decide (z0 ∈ zone <$> data)) as [Hin|Hnin].
      * rewrite Hz0. simpl. by rewrite Hz0.
      * rewrite Hz0, lookup_insert_eq. simpl. by rewrite zone_totals_absent.
    + assert (
        match zwd !! z0 with None => <[z0:=no_totals]> zwd | Some _ => zwd end !! z
        = zwd !! z) as ->.
      { destruct (zwd !! z0); [done|]. by rewrite lookup_insert_ne. }
      rewrite Hz. destruct (decide (z ∈ zone <$> data)) as [Hin|Hnin].
      * rewrite decide_True; [done|]. apply elem_of_app. by left.
      * rewrite decide_False; [done|]. intros [?|Hin]%elem_of_app; [done|].
        apply list_elem_of_singleton in Hin. done.
Qed.

Lemma point_loop_ok f s (pts : list (string * Z)) data zwd :
  Forall point_row_ok data → zone_wise_ok data zwd →
  ∃ data' zwd', point_loop f s pts (data, zwd) = Some (data', zwd') ∧
    Forall point_row_ok data' ∧ zone_wise_ok data' zwd'.
Proof.
  revert data zwd.
  induction pts as [|pd pts IH]; intros data zwd Hrows Hzwd; cbn [point_loop].
  - by eauto.
  - destruct (point_step_ok f s data zwd pd Hrows Hzwd)
      as (data1 & zwd1 & -> & Hrows1 & Hzwd1). cbn [mbind option_bind]. by apply IH.
Qed.

Lemma collect_points_ok f s :
  ∃ data zwd, collect_points f s = Some (data, zwd) ∧
    Forall point_row_ok data ∧ zone_wise_ok data zwd.
Proof.
  apply point_loop_ok; [constructor|]. intros z. by rewrite lookup_empty.
Qed.

Lemma zone_total_row_value zwd (cz : string) (t : Totals) :
  zwd !! Some cz = Some t → zone_total_row zwd cz = Some (total_row cz t).
Proof.
  intros Ht. unfold zone_total_row. rewrite Ht. simpl.
  by rewrite percentage_value.
Qed.

Lemma grand_total_row_value data : grand_total_row data = Some (grand_row data).
Proof. unfold grand_total_row. by rewrite percentage_value. Qed.

(** The subtotal loop appends the rows [weave] lists, provided the
    lookups in [zone_wise_data] it makes find their key. *)
Lemma subtotal_loop_weave zwd (zr : string → Row) data (cz : option string)
    (final : list Row) :
  (∀ c, c ∈ emitted data cz → zone_total_row zwd c = Some (zr c)) →
  subtotal_loop zwd data cz final
  = Some (last_zone data cz, final ++ weave zr data cz).
Proof.
  revert cz final. induction data as [|r data IH]; intros cz final Hz.
  - simpl. by rewrite app_nil_r.
  - cbn [subtotal_loop emitted weave last_zone foldl] in *.
    destruct (decide (zone r ≠ cz)) as [Hne|Heq].
    + destruct cz as [c|]; cbn [option_list fmap list_fmap] in *.
      * rewrite (Hz c) by (apply elem_of_app; left; apply list_elem_of_here).
        cbn [mbind option_bind]. rewrite IH.
        -- unfold last_zone. by rewrite <- !app_assoc.
        -- intros c' Hc'. apply Hz, elem_of_app. by right.
      * cbn [mbind option_bind]. rewrite IH.
        -- unfold last_zone. by rewrite <- !app_assoc.
        -- intros c' Hc'. apply Hz, elem_of_app. by right.
    + apply dec_stable in Heq. subst cz. rewrite IH.
      * unfold last_zone. by rewrite <- !app_assoc.
      * intros c' Hc'. by apply Hz.
Qed.

Lemma emitted_zones data (cz : option string) (c : string) :
  c ∈ emitted data cz → Some c = cz ∨ Some c ∈ zone <$> data.
Proof.
  revert cz. induction data as [|r data IH]; intros cz; simpl.
  - by intros ?%elem_of_nil.
  - intros [Hc|Hc]%elem_of_app.
    + left. destruct (decide (zone r ≠ cz)); [|by apply elem_of_nil in Hc].
      destruct cz as [c'|]; simpl in Hc; [|by apply elem_of_nil in Hc].
      by apply list_elem_of_singleton in Hc as ->.
    + right. apply IH in Hc as [Hc|Hc]; [rewrite Hc; left|by right].
Qed.

Lemma last_zone_cases data (cz : option string) :
  (data = [] ∧ last_zone data cz = cz) ∨ last_zone data cz ∈ zone <$> data.
Proof.
  revert cz. induction data as [|r data IH]; intros cz; [by left|right].
  unfold last_zone. simpl. destruct (IH (zone r)) as [[-> Hl]|Hl].
  - simpl. left.
  - by right.
Qed.

Lemma tail_zone_zones data (c : string) :
  c ∈ tail_zone data → Some c ∈ zone <$> data ∧ c ≠ "".
Proof.
  unfold tail_zone. destruct (last_zone_cases data None) as [[-> Hl]|Hl].
  - by intros ?%elem_of_nil.
  - destruct (last_zone data None) as [c'|]; [|by intros ?%elem_of_nil].
    case_bool_decide; [|by intros ?%elem_of_nil].
    by intros ->%list_elem_of_singleton.
Qed.

(** The rows of [weave]: the rows of [data] and the total rows of the
    zones in [emitted]. *)
Lemma elem_of_weave (zr : string → Row) data (cz : option string) r :
  r ∈ weave zr data cz ↔ r ∈ data ∨ ∃ c, c ∈ emitted data cz ∧ r = zr c.
Proof.
  revert cz. induction data as [|r' data IH]; intros cz; simpl.
  - split; [by intros ?%elem_of_nil|].
    intros [?%elem_of_nil|(c & ?%elem_of_nil & _)]; done.
  - rewrite elem_of_app, !elem_of_cons, IH. split.
    + intros [Hr|[->|[Hr|(c & Hc & ->)]]].
      * right. destruct (decide (zone r' ≠ cz)); [|by apply elem_of_nil in Hr].
        apply list_elem_of_fmap in Hr as (c & -> & Hc).
        exists c. split; [|done]. apply elem_of_app. by left.
      * left. by left.
      * left. by right.
      * right. exists c. split; [|done]. apply elem_of_app. by right.
    + intros [[->|Hr]|(c & [Hc|Hc]%elem_of_app & ->)].
      * right. by left.
      * right. right. by left.
      * left. destruct (decide (zone r' ≠ cz)); [|by apply elem_of_nil in Hc].
        by apply list_elem_of_fmap_2.
      * right. right. right. by exists c.
Qed.


(** The point rows of [weave] are the rows of [data], in their order. *)
Lemma weave_point_rows (zr : string → Row) data (cz : option string) :
  (∀ c, point (zr c) = "") → Forall (λ r, point r ≠ "") data →
  filter (λ r, point r ≠ "") (weave zr data cz) = data.
Proof.
  intros Hzr Hdata. revert cz.
  induction Hdata as [|r data Hr _ IH]; intros cz; simpl; [done|].
  rewrite filter_app, filter_cons_True, IH by done.
  destruct (decide (zone r ≠ cz)); [|done].
  destruct cz as [c|]; simpl; [|done].
  rewrite filter_cons_False; [done|]. intros H. by apply H.
Qed.

Lemma zone_wise_lookup data0 data zwd (c : string) :
  zone_wise_ok data0 zwd → data ≡ₚ data0 → Some c ∈ zone <$> data →
  zone_total_row zwd c = Some (zrow data c).
Proof.
  intros Hzwd Hp Hc. apply zone_total_row_value. rewrite (Hzwd (Some c)).
  rewrite decide_True by by rewrite <- Hp.
  by rewrite (zone_totals_perm data data0).
Qed.

(** The report never raises, and its rows are those of [report_body]
    over the sorted point rows, then the grand total. *)
Lemma report_structure f s :
  ∃ data0 zwd, collect_points f s = Some (data0, zwd) ∧
    let data := sort_by_key sort_key data0 in
    Forall point_row_ok data ∧
    get_point_wise_attendance f s = Some (report_body data ++ [grand_row data]).
Proof.
  destruct (collect_points_ok f s) as (data0 & zwd & Hcol & Hrows & Hzwd).
  exists data0, zwd. split; [done|]. intros data.
  assert (data ≡ₚ data0) as Hp by apply sort_by_key_perm.
  split; [by rewrite Hp|].
  unfold get_point_wise_attendance. rewrite Hcol. cbn [mbind option_bind].
  fold data. rewrite grand_total_row_value. cbn [mbind option_bind].
  unfold with_zone_totals.
  rewrite (subtotal_loop_weave zwd (zrow data)); cycle 1.
  { intros c [[=]|Hc]%emitted_zones. by eapply zone_wise_lookup. }
  cbn [mbind option_bind]. unfold report_body, tail_zone.
  destruct (last_zone_cases data None) as [[Hnil Hl]|Hl].
  - rewrite Hl. simpl. by rewrite app_nil_r.
  - destruct (last_zone data None) as [cz|] eqn:Hlz; simpl.
    + case_bool_decide.
      * rewrite (zone_wise_lookup data0 data zwd cz) by done. done.
      * simpl. by rewrite app_nil_r.
    + by rewrite app_nil_r.
Qed.

Lemma str_length_app (s t : string) :
  String.length (s +:+ t) = String.length s + String.length t.
Proof.
  induction s as [|c s IH]; [done|].
  change (String c s +:+ t) with (String c (s +:+ t)). simpl. by rewrite IH.
Qed.

Lemma str_app_inj_r (s1 s2 t : string) : s1 +:+ t = s2 +:+ t → s1 = s2.
Proof.
  revert s2. induction s1 as [|c s1 IH]; intros [|c' s2] H; [done|..].
  - apply (f_equal String.length) in H.
    change (String c' s2 +:+ t) with (String c' (s2 +:+ t)) in H.
    change ("" +:+ t) with t in H. simpl in H. rewrite str_length_app in H. lia.
  - apply (f_equal String.length) in H.
    change (String c s1 +:+ t) with (String c (s1 +:+ t)) in H.
    change ("" +:+ t) with t in H. simpl in H. rewrite str_length_app in H. lia.
  - change (String c s1 +:+ t) with (String c (s1 +:+ t)) in H.
    change (String c' s2 +:+ t) with (String c' (s2 +:+ t)) in H.
    injection H as -> H. f_equal. by apply IH.
Qed.

Lemma all_but_last_snoc {A} (l : list A) (x : A) : all_but_last (l ++ [x]) = l.
Proof.
  unfold all_but_last. rewrite length_app. simpl.
  replace (length l + 1 - 1) with (length l) by lia. by rewrite take_app_length.
Qed.

(** The rows of the report before the grand total: point rows and the
    total rows of zones that have a point row. *)
Lemma elem_of_report_body data r :
  r ∈ report_body data →
  r ∈ data ∨ ∃ c, Some c ∈ zone <$> data ∧ r = zrow data c.
Proof.
  unfold report_body. intros [Hr|Hr]%elem_of_app.
  - apply elem_of_weave in Hr as [Hr|(c & Hc & ->)]; [by left|right].
    exists c. split; [|done]. by apply emitted_zones in Hc as [[=]|Hc].
  - right. apply list_elem_of_fmap in Hr as (c & -> & Hc).
    exists c. split; [|done]. by apply tail_zone_zones in Hc as [Hc _].
Qed.

Lemma report_body_point_rows data :
  Forall point_row_ok data →
  filter (λ r, point r ≠ "") (report_body data) = data.
Proof.
  intros Hdata. unfold report_body. rewrite filter_app, weave_point_rows.
  - assert (filter (λ r, point r ≠ "") (zrow data <$> tail_zone data) = []) as ->;
      [|by rewrite app_nil_r].
    induction (tail_zone data) as [|c l IH]; [done|]. simpl.
    rewrite filter_cons_False; [done|]. intros H. by apply H.
  - done.
  - eapply Forall_impl; [done|]. by intros r [? _].
Qed.

(** Every row of the report has its percentage computed from its own
    three counts. *)
Lemma report_rows_percentage data r :
  Forall point_row_ok data → r ∈ report_body data ++ [grand_row data] →
  attendance_percentage r
  = pct_value (present r) (present r + absent r + on_leave r).
Proof.
  intros Hdata [Hr|Hr]%elem_of_app.
  - apply elem_of_report_body in Hr as [Hr|(c & _ & ->)]; [|done].
    rewrite Forall_forall in Hdata. by apply Hdata.
  - by apply list_elem_of_singleton in Hr as ->.
Qed.

(** C8: the report never raises, and a row whose three counts add up to
    zero has the integer 0 as its percentage; in particular a point with
    no submitted Attendance row of the date has the counts 0, 0, 0.  The
    division is not reached then: [percentage p 0] is 0 for every [p],
    where the division itself would raise. *)
Theorem C8_zero_marked_gives_zero_percent (f : Filters) (s : Site) :
  (∀ p, percentage p 0 = Some 0%Q ∧ py_truediv p 0 = None) ∧
  (∀ employees, attendance_rows f s employees = [] →
     count_loop (attendance_counts f s employees) = (0, 0, 0)%Z) ∧
  ∃ rows, get_point_wise_attendance f s = Some rows ∧
    ∀ r, r ∈ rows → (present r + absent r + on_leave r = 0)%Z →
      attendance_percentage r = 0%Q.
Proof.
  split_and!.
  - done.
  - intros employees Hrows. unfold attendance_counts. by rewrite Hrows.
  - destruct (report_structure f s) as (data0 & zwd & _ & Hdata & Hrep).
    eexists. split; [done|]. intros r Hr Hzero.
    rewrite (report_rows_percentage _ _ Hdata Hr), Hzero. done.
Qed.



(** The point rows of a zone in the report are the rows of that zone in
    the sorted data. *)
Lemma zone_point_rows_report data (c : string) :
  Forall point_row_ok data →
  zone_point_rows c (report_body data ++ [grand_row data])
  = filter (λ r, zone r = Some c) data.
Proof.
  intros Hdata. unfold zone_point_rows.
  rewrite (list_filter_iff _ (λ r, zone r = Some c ∧ point r ≠ ""))
    by (intros r; split; intros [? ?]; by split).
  rewrite <- (list_filter_filter (λ r, zone r = Some c) (λ r, point r ≠ "")).
  rewrite (filter_app (λ r, point r ≠ "")), report_body_point_rows by done.
  rewrite filter_cons_False by (intros H; by apply H).
  by rewrite filter_nil, app_nil_r.
Qed.

(** A total row of the report is the total row of a zone of the data. *)
Lemma report_body_total_row data r (c : string) :
  Forall point_row_ok data → r ∈ report_body data → point r = "" →
  zone r = Some (c +:+ " Total") →
  r = zrow data c ∧ Some c ∈ zone <$> data.
Proof.
  intros Hdata Hr Hpt Hz.
  apply elem_of_report_body in Hr as [Hr|(c' & Hc' & ->)].
  - rewrite Forall_forall in Hdata. by destruct (Hdata r Hr) as [? _].
  - simpl in Hz. injection Hz as Hz. apply str_app_inj_r in Hz. by subst c'.
Qed.



(** *** The summary of [execute] *)





(** On sorted rows that all have a zone, the loop meets each zone once. *)
Lemma emitted_sorted data (c0 : string) :
  Forall (λ r, zone r = Some (sort_key r).1) data →
  StronglySorted (key_le sort_key) data →
  Forall (λ r, c0 ≤ (sort_key r).1)%string data →
  ∃ lz, last_zone data (Some c0) = Some lz ∧ (c0 ≤ lz)%string ∧
    NoDup (emitted data (Some c0)) ∧
    ∀ c, c ∈ emitted data (Some c0) → (c0 ≤ c)%string ∧ (c ≤ lz)%string ∧ c ≠ lz.
Proof.
  intros Hsome. revert c0.
  induction Hsome as [|r data Hz _ IH]; intros c0 Hsorted Hlow.
  - exists c0. split_and!; [done|done|constructor|by intros ? ?%elem_of_nil].
  - apply StronglySorted_inv in Hsorted as [Hsorted Hhd].
    apply Forall_cons in Hlow as [Hr Hlow].
    set (z := (sort_key r).1) in *.
    assert (Forall (λ r', z ≤ (sort_key r').1)%string data) as Hz_low.
    { eapply Forall_impl; [exact Hhd|]. intros r' Hle.
      unfold key_le, lex_le in Hle. fold z in Hle.
      destruct Hle as [[_ Hle]|[<- _]]; done. }
    destruct (IH z Hsorted Hz_low) as (lz & Hlz & Hzlz & Hnd & Hall).
    unfold last_zone in *. cbn [emitted foldl]. rewrite Hz. fold z.
    exists lz. split; [done|].
    destruct (decide (Some z ≠ Some c0)) as [Hne|Heq].
    + assert (z ≠ c0) as Hne' by congruence. simpl. split_and!.
      * by etrans.
      * constructor; [|done]. intros Hin. apply Hall in Hin as (Hle & _ & _).
        apply Hne'. by apply (anti_symm String.le).
      * intros c [->|Hc]%elem_of_cons.
        -- split_and!; [done|by etrans|]. intros ->.
           apply Hne'. by apply (anti_symm String.le).
        -- destruct (Hall c Hc) as (? & ? & ?). split_and!; [by etrans|done|done].
    + apply dec_stable in Heq. injection Heq as Heq. rewrite <- Heq. simpl.
      split_and!; [done|done|done].
Qed.

Lemma totals_NoDup data :
  Forall (λ r, zone r = Some (sort_key r).1) data →
  StronglySorted (key_le sort_key) data →
  NoDup (emitted data None ++ tail_zone data).
Proof.
  intros Hsome Hsorted. destruct data as [|r data]; [constructor|].
  apply Forall_cons in Hsome as [Hz Hsome].
  apply StronglySorted_inv in Hsorted as [Hsorted Hhd].
  unfold tail_zone, last_zone. cbn [emitted foldl]. rewrite Hz.
  rewrite decide_True by done. cbn [option_list app].
  set (z := (sort_key r).1) in *.
  destruct (emitted_sorted data z Hsome Hsorted) as (lz & Hlz & _ & Hnd & Hall).
  { eapply Forall_impl; [exact Hhd|]. intros r' Hle.
    unfold key_le, lex_le in Hle. fold z in Hle.
    destruct Hle as [[_ Hle]|[<- _]]; done. }
  unfold last_zone in Hlz. rewrite Hlz. case_bool_decide.
  - apply NoDup_app. split_and!; [done| |apply NoDup_singleton].
    intros c Hc ->%list_elem_of_singleton. by apply Hall in Hc as (_ & _ & ?).
  - by rewrite app_nil_r.
Qed.

Lemma report_body_nonneg data r :
  Forall point_row_ok data → r ∈ report_body data →
  (0 ≤ present r ∧ 0 ≤ absent r ∧ 0 ≤ on_leave r)%Z.
Proof.
  intros Hdata Hr. apply elem_of_report_body in Hr as [Hr|(c & _ & ->)].
  - rewrite Forall_forall in Hdata. destruct (Hdata r Hr) as (_ & ? & ? & ? & _). done.
  - simpl. split_and!; apply sum_of_nonneg, Forall_forall;
      intros r [_ Hr]%list_elem_of_filter; rewrite Forall_forall in Hdata;
      destruct (Hdata r Hr) as (_ & ? & ? & ? & _); done.
Qed.





Lemma count_steps_keep_present (l : list (string * Z)) (acc : Z * Z * Z) :
  Forall (λ x, x.1 ∉ ["Present"; "Work From Home"]) l →
  (foldl count_step acc l).1.1 = acc.1.1.
Proof.
  intros Hl. revert acc. induction Hl as [|[st c] l Hx _ IH]; intros acc; [done|].
  cbn [foldl]. rewrite IH. destruct acc as [[p a] o]. unfold count_step.
  rewrite bool_decide_eq_false_2 by done. by repeat case_bool_decide.
Qed.

(** The last group of status Present or Work From Home decides
    [present]: what an earlier group gave is lost. *)
Lemma count_loop_present_overwritten (l l' : list (string * Z)) (st : string) (c : Z) :
  st ∈ ["Present"; "Work From Home"] →
  Forall (λ x, x.1 ∉ ["Present"; "Work From Home"]) l' →
  (count_loop (l ++ (st, c) :: l')).1.1 = c.
Proof.
  intros Hst Hl'. unfold count_loop. rewrite foldl_app. cbn [foldl].
  rewrite count_steps_keep_present by done.
  destruct (foldl count_step (0, 0, 0)%Z l) as [[p a] o]. unfold count_step.
  by rewrite bool_decide_eq_true_2.
Qed.

(** C2 fails on the code: with a group of two Present rows and a group
    of one Work From Home row, [present] is the count of the group that
    comes last, 1 or 2, and not their sum 3; so it is in the report for a
    point with such rows. *)
Theorem C2_present_is_last_group_not_sum :
  count_loop [("Present", 2%Z); ("Work From Home", 1%Z)] = (1, 0, 0)%Z ∧
  count_loop [("Work From Home", 1%Z); ("Present", 2%Z)] = (2, 0, 0)%Z ∧
  let f := with_companies demo_filters wfh_site in
  present_or_wfh f wfh_site "P1" = 3%Z ∧
  ∃ r rest, get_point_wise_attendance f wfh_site = Some (r :: rest) ∧
    point r = "P1" ∧ present r = 1%Z.
Proof.
  split_and!; [reflexivity|reflexivity|]. intros f. split; [reflexivity|].
  eexists _, _. split; [vm_compute; reflexivity|]. done.
Qed.

(** C6 fails on the code: when the only zone of the report is the empty
    one, the report is the point rows and the grand total, with no total
    row for the zone; the same zone does get its total row, named
    [ Total], when the rows of another zone follow. *)
Theorem C6_no_total_row_for_lone_empty_zone :
  (∃ r g,
     get_point_wise_attendance (with_companies demo_filters no_zone_site)
       no_zone_site = Some [r; g] ∧
     point r = "P1" ∧ zone r = Some "" ∧
     point g = "" ∧ zone g = Some "Grand Total") ∧
  (∃ r1 t1 r2 t2 g,
     get_point_wise_attendance (with_companies demo_filters two_zone_site)
       two_zone_site = Some [r1; t1; r2; t2; g] ∧
     point r1 = "P1" ∧ zone r1 = Some "" ∧
     point t1 = "" ∧ zone t1 = Some " Total" ∧
     point r2 = "P2" ∧ zone r2 = Some "Z1" ∧
     point t2 = "" ∧ zone t2 = Some "Z1 Total" ∧
     zone g = Some "Grand Total").
Proof.
  split.
  - eexists _, _. split; [vm_compute; reflexivity|]. done.
  - eexists _, _, _, _, _. split; [vm_compute; reflexivity|]. done.
Qed.

(** The scenario of the specification: [P1] at 200/3 percent, [P2] at 0,
    the total of [Z1] and the grand total at 40. *)
Example scenario_rows :
  (λ r, (zone r, point r, present r, Qred (attendance_percentage r)))
    <$> default [] (get_point_wise_attendance
                      (with_companies demo_filters scenario_site) scenario_site)
  = [ (Some "Z1", "P1", 2%Z, (200 # 3)%Q);
      (Some "Z1", "P2", 0%Z, 0%Q);
      (Some "Z1 Total", "", 2%Z, 40%Q);
      (Some "Grand Total", "", 2%Z, 40%Q) ].
Proof. vm_compute. reflexivity. Qed.


Lemma C8_witness :
  let f := {| company := Some "C"; include_company_descendants := false;
              date := "another day"; zones := []; points := [];
              companies := ["C"] |} in
  ∃ rows r,
    get_point_wise_attendance f scenario_site = Some rows ∧
    rows !! 0 = Some r ∧ point r = "P1" ∧ total_employees r = 3%Z ∧
    (present r + absent r + on_leave r = 0)%Z ∧
    attendance_percentage r = 0%Q.
Proof.
  intros f.
  destruct (C8_zero_marked_gives_zero_percent f scenario_site)
    as (_ & _ & rows & Hrows & H).
  exists rows. pose proof Hrows as Heq. vm_compute in Heq. injection Heq as <-.
  eexists. split; [exact Hrows|]. split; [reflexivity|].
  split; [reflexivity|]. split; [reflexivity|]. split; [reflexivity|].
  apply H; [apply list_elem_of_here|reflexivity].
Defined.

End point_wise_attendance_proofs.

(** ** More on the attendance report *)

Section point_wise_attendance_more.
Import point_wise_attendance.
Implicit Types (data : list Row) (zwd : gmap (option string) Totals)
  (r : Row) (f : Filters) (s : Site).

(** The loop over the points builds [row_of] for each named point. *)
Lemma point_loop_rows f s (pts : list (string * Z)) data zwd :
  ∃ zwd', point_loop f s pts (data, zwd)
          = Some (data ++ (row_of f s <$> filter (λ pd, pd.1 ≠ "") pts), zwd').
Proof.
  revert data zwd. induction pts as [|[pt total] pts IH]; intros data zwd.
  - exists zwd. simpl. by rewrite app_nil_r.
  - cbn [point_loop]. unfold point_step.
    case_bool_decide as Hpt.
    + cbn [mbind option_bind]. rewrite filter_cons_False by (simpl; by intros ?).
      apply IH.
    + rewrite filter_cons_True by done. rewrite fmap_cons.
      unfold row_of at 1. simpl.
      destruct (count_loop _) as [[p a] o] eqn:Hcount. simpl.
      rewrite percentage_value. cbn [mbind option_bind].
      edestruct IH as (zwd' & ->). exists zwd'. by rewrite <- app_assoc.
Qed.

Lemma collect_points_rows f s :
  ∃ zwd, collect_points f s = Some (row_of f s <$> named_points f s, zwd).
Proof. apply (point_loop_rows f s (points_query f s) [] ∅). Qed.
Lemma group_count_fst (keys : list string) :
  (group_count keys).*1 = remove_dups keys.
Proof.
  unfold group_count. rewrite <- list_fmap_compose.
  induction (remove_dups keys) as [|k l IH]; [done|].
  rewrite fmap_cons. simpl. f_equal. apply IH.
Qed.

Lemma elem_of_group_count (keys : list string) (k : string) (c : Z) :
  (k, c) ∈ group_count keys ↔
  k ∈ keys ∧ c = Z.of_nat (length (filter (λ k', k' = k) keys)).
Proof.
  unfold group_count. rewrite list_elem_of_fmap. split.
  - intros (k' & Heq & Hk). injection Heq as -> ->.
    split; [|done]. by rewrite elem_of_remove_dups in Hk.
  - intros [Hk ->]. exists k. split; [done|]. by apply elem_of_remove_dups.
Qed.

(** The count of the group of [pt] is the number of employees whose
    attendance the loop then fetches for [pt]. *)
Lemma headcount_is_point_employees f s (pt : string) :
  pt ∈ custom_point_filter f s →
  length (filter (λ k, k = pt)
            (omap emp_custom_point
               (filter (λ e, counted f e ∧
                             sql_in (emp_custom_point e) (custom_point_filter f s))
                       (tabEmployee s))))
  = length (point_employees f s pt).
Proof.
  intros Hpt. unfold point_employees. rewrite length_fmap.
  induction (tabEmployee s) as [|e tbl IH]; [done|].
  rewrite !filter_cons.
  destruct (decide (emp_custom_point e = Some pt ∧ counted f e)) as [[Hcp Hc]|Hn].
  - rewrite decide_True by (split; [done|]; exists pt; by rewrite Hcp).
    cbn [omap list_omap]. rewrite Hcp. rewrite filter_cons_True by done.
    cbn [length]. f_equal. apply IH.
  - destruct (decide (counted f e ∧ sql_in (emp_custom_point e) (custom_point_filter f s)))
      as [[Hc (q & Hq & Hin)]|Hn']; [|apply IH].
    cbn [omap list_omap]. rewrite Hq. rewrite filter_cons_False; [apply IH|].
    intros ->. apply Hn. by split.
Qed.

Lemma elem_of_named_points f s (pt : string) (total : Z) :
  (pt, total) ∈ named_points f s ↔
  pt ≠ "" ∧ pt ∈ custom_point_filter f s ∧
  (∃ e, e ∈ tabEmployee s ∧ counted f e ∧ emp_custom_point e = Some pt) ∧
  total = Z.of_nat (length (point_employees f s pt)).
Proof.
  unfold named_points, points_query.
  rewrite list_elem_of_filter, elem_of_group_count, list_elem_of_omap. simpl. split.
  - intros (Hne & (e & He & Hcp) & ->).
    apply list_elem_of_filter in He as [[Hc (q & Hq & Hin)] He].
    assert (q = pt) as -> by congruence.
    split_and!; [done|done|by exists e|]. by rewrite headcount_is_point_employees.
  - intros (Hne & Hin & (e & He & Hc & Hcp) & ->). split_and!; [done| |].
    + exists e. split; [|done]. apply list_elem_of_filter. split; [|done].
      split; [done|]. by exists pt.
    + by rewrite headcount_is_point_employees.
Qed.

Lemma named_points_NoDup f s : NoDup (named_points f s).*1.
Proof.
  unfold named_points, points_query.
  eapply sublist_NoDup; [|apply fmap_sublist, sublist_filter].
  rewrite group_count_fst. apply NoDup_remove_dups.
Qed.

(** The point rows of the report are the rows of the named points, in
    sorted order. *)
Lemma report_point_rows f s :
  ∃ rows, get_point_wise_attendance f s = Some rows ∧
    point_rows rows = sort_by_key sort_key (row_of f s <$> named_points f s).
Proof.
  destruct (report_structure f s) as (data0 & zwd & Hcol & Hdata & Hrep).
  destruct (collect_points_rows f s) as (zwd' & Hcol').
  rewrite Hcol in Hcol'. injection Hcol' as -> _.
  eexists. split; [done|]. unfold point_rows.
  rewrite filter_app, report_body_point_rows by done.
  rewrite filter_cons_False by (intros H; by apply H).
  by rewrite filter_nil, app_nil_r.
Qed.

Lemma elem_of_custom_point_filter f s (pt : string) :
  pt ∈ custom_point_filter f s ↔
  (∃ p, p ∈ tabPoint s ∧ pt_name p = pt ∧ pt_is_active p = 1%Z ∧
        (zones f = [] ∨ sql_in (pt_zone_name p) (zones f))) ∧
  (points f = [] ∨ pt ∈ points f).
Proof.
  unfold custom_point_filter, allowed_points.
  assert (pt ∈ pt_name <$> filter (λ p, pt_is_active p = 1%Z ∧
            (zones f = [] ∨ sql_in (pt_zone_name p) (zones f))) (tabPoint s)
          ↔ ∃ p, p ∈ tabPoint s ∧ pt_name p = pt ∧ pt_is_active p = 1%Z ∧
                 (zones f = [] ∨ sql_in (pt_zone_name p) (zones f))) as Hallowed.
  { rewrite list_elem_of_fmap. split.
    - intros (p & -> & [[? ?] ?]%list_elem_of_filter). by exists p.
    - intros (p & Hp & <- & ? & ?). exists p. split; [done|].
      by apply list_elem_of_filter. }
  destruct (points f) as [|q qs] eqn:Hpts.
  - rewrite Hallowed. split; [intros H; split; [done|by left]|by intros [H _]].
  - rewrite list_elem_of_filter, Hallowed. split.
    + intros [H Hin]. split; [done|by right].
    + intros [H [?|Hin]]; [done|by split].
Qed.

Lemma point_row_of f s (pd : string * Z) : point (row_of f s pd) = pd.1.
Proof. done. Qed.

(** X1: the point rows of the report, read off the tables.  No point has
    two rows; a point has a row exactly when its name is not empty, it
    is an active Point that passes the zone filter, it is in the points
    filter when one is given, and an active employee of the companies is
    stationed there; the row holds the number of these employees, at
    least 1, and the counts the loop over their attendance gives; its
    zone is the one [point_zone_map] has for the point, the empty string
    when it has none. *)
Theorem X1_point_rows_read_off_tables (f : Filters) (s : Site) :
  ∃ rows, get_point_wise_attendance f s = Some rows ∧
    NoDup (point <$> point_rows rows) ∧
    (∀ pt, pt ∈ point <$> point_rows rows ↔
       pt ≠ "" ∧
       ((∃ p, p ∈ tabPoint s ∧ pt_name p = pt ∧ pt_is_active p = 1%Z ∧
              (zones f = [] ∨ sql_in (pt_zone_name p) (zones f))) ∧
        (points f = [] ∨ pt ∈ points f)) ∧
       (∃ e, e ∈ tabEmployee s ∧ counted f e ∧ emp_custom_point e = Some pt)) ∧
    (∀ r, r ∈ point_rows rows →
       total_employees r = Z.of_nat (length (point_employees f s (point r))) ∧
       (1 ≤ total_employees r)%Z ∧
       (present r, absent r, on_leave r)
       = count_loop (attendance_counts f s (point_employees f s (point r))) ∧
       zone r = default (Some "") (point_zone_map f s !! point r)).
Proof.
  destruct (report_point_rows f s) as (rows & Hrep & Hpts).
  exists rows. split; [done|]. rewrite Hpts.
  pose proof (sort_by_key_perm sort_key (row_of f s <$> named_points f s)) as Hp.
  assert (point <$> (row_of f s <$> named_points f s) = (named_points f s).*1) as Hfst.
  { rewrite <- list_fmap_compose. apply list_fmap_ext. by intros i [pt total] _. }
  split_and!.
  - rewrite Hp, Hfst. apply named_points_NoDup.
  - intros pt. rewrite Hp, Hfst, <- elem_of_custom_point_filter.
    rewrite list_elem_of_fmap. split.
    + intros ([pt' total] & -> & Hin). apply elem_of_named_points in Hin.
      simpl. by destruct Hin as (? & ? & ? & _).
    + intros (Hne & Hin & He). eexists (pt, _). split; [done|].
      apply elem_of_named_points. split_and!; done.
  - intros r Hr. rewrite Hp in Hr.
    apply list_elem_of_fmap in Hr as ([pt total] & -> & Hin).
    apply elem_of_named_points in Hin as (Hne & Hin & (e & He & Hc & Hcp) & ->).
    simpl. split_and!; [done| |by destruct (count_loop _) as [[??]?]|done].
    assert (emp_name e ∈ point_employees f s pt) as Hlen.
    { unfold point_employees. apply list_elem_of_fmap_2, list_elem_of_filter. by split. }
    destruct (point_employees f s pt); [by apply elem_of_nil in Hlen|]. simpl. lia.
Qed.

Lemma pct_value_bounds (p a o : Z) :
  (0 ≤ p)%Z → (0 ≤ a)%Z → (0 ≤ o)%Z →
  (0 <= pct_value p (p + a + o))%Q ∧ (pct_value p (p + a + o) <= 100)%Q.
Proof.
  intros Hp Ha Ho. unfold pct_value. case_bool_decide as Hm; [|done].
  destruct (p + a + o)%Z as [|m|m] eqn:Hsum; [done| |lia].
  assert (p ≤ Z.pos m)%Z as Hle by lia.
  unfold Qle, Qdiv, Qmult, Qinv, inject_Z. simpl. split; nia.
Qed.

(** X2: in every row of the report (point rows, zone totals and the
    grand total) the three counts are not negative and the percentage is
    between 0 and 100. *)
Theorem X2_percentage_between_0_and_100 (f : Filters) (s : Site) :
  ∃ rows, get_point_wise_attendance f s = Some rows ∧
    ∀ r, r ∈ rows →
      (0 ≤ present r)%Z ∧ (0 ≤ absent r)%Z ∧ (0 ≤ on_leave r)%Z ∧
      (0 <= attendance_percentage r)%Q ∧ (attendance_percentage r <= 100)%Q.
Proof.
  destruct (report_structure f s) as (data0 & zwd & _ & Hdata & Hrep).
  eexists. split; [done|]. intros r Hr.
  rewrite (report_rows_percentage _ _ Hdata Hr).
  assert (0 ≤ present r ∧ 0 ≤ absent r ∧ 0 ≤ on_leave r)%Z as (Hp & Ha & Ho).
  { apply elem_of_app in Hr as [Hr|Hr].
    - by apply (report_body_nonneg _ _ Hdata).
    - apply list_elem_of_singleton in Hr as ->. simpl.
      split_and!; apply sum_of_nonneg; (eapply Forall_impl; [exact Hdata|]);
        by intros r (_ & ? & ? & ? & _). }
  split_and!; [done|done|done|by apply pct_value_bounds..].
Qed.

(** X3: the totals agree with the point rows shown.  The last row is the
    grand total, and each of its four counts is the sum of that count
    over the point rows of the report; each of the four counts of a zone
    total row is the sum over the point rows of its zone. *)
Theorem X3_totals_are_sums_of_point_rows (f : Filters) (s : Site) :
  ∃ rows g, get_point_wise_attendance f s = Some rows ∧
    last rows = Some g ∧ point g = "" ∧ zone g = Some "Grand Total" ∧
    (total_employees g = sum_of total_employees (point_rows rows) ∧
     present g = sum_of present (point_rows rows) ∧
     absent g = sum_of absent (point_rows rows) ∧
     on_leave g = sum_of on_leave (point_rows rows)) ∧
    (∀ r c, r ∈ all_but_last rows → point r = "" →
       zone r = Some (c +:+ " Total") →
       total_employees r = sum_of total_employees (zone_point_rows c rows) ∧
       present r = sum_of present (zone_point_rows c rows) ∧
       absent r = sum_of absent (zone_point_rows c rows) ∧
       on_leave r = sum_of on_leave (zone_point_rows c rows)).
Proof.
  destruct (report_structure f s) as (data0 & zwd & _ & Hdata & Hrep).
  eexists _, (grand_row _). split; [done|]. rewrite last_snoc.
  do 3 (split; [done|]). split.
  - unfold point_rows. rewrite filter_app, report_body_point_rows by done.
    rewrite filter_cons_False by (intros H; by apply H).
    by rewrite filter_nil, app_nil_r.
  - intros r c Hr Hpt Hz. rewrite all_but_last_snoc in Hr.
    destruct (report_body_total_row _ _ _ Hdata Hr Hpt Hz) as [-> _].
    by rewrite zone_point_rows_report.
Qed.




(** A zone met by the loop gets its total in the loop, or is the zone the
    loop ends on. *)
Lemma zone_emitted_or_last data (cz : option string) (c : string) :
  cz = Some c ∨ Some c ∈ zone <$> data →
  c ∈ emitted data cz ∨ last_zone data cz = Some c.
Proof.
  revert cz. induction data as [|r data IH]; intros cz Hc.
  - destruct Hc as [->|Hc]; [by right|by apply elem_of_nil in Hc].
  - unfold last_zone in *. cbn [emitted foldl].
    destruct (decide (cz = Some c ∧ zone r ≠ cz)) as [[-> Hne]|Hn].
    + left. rewrite decide_True by done. apply elem_of_app. left.
      apply list_elem_of_here.
    + destruct (IH (zone r)) as [Hin|Hl]; [|left; apply elem_of_app; by right|by right].
      destruct Hc as [->|Hc].
      * left. destruct (decide (zone r = Some c)); [done|]. destruct Hn. by split.
      * rewrite fmap_cons in Hc. apply elem_of_cons in Hc as [Hc|Hc]; [by left|by right].
Qed.

Lemma zone_gets_total data (c : string) :
  Some c ∈ zone <$> data → c ≠ "" → c ∈ emitted data None ++ tail_zone data.
Proof.
  intros Hc Hne. apply elem_of_app.
  destruct (zone_emitted_or_last data None c) as [?|Hl]; [by right|by left|right].
  unfold tail_zone. rewrite Hl. rewrite bool_decide_eq_true_2 by done.
  apply list_elem_of_here.
Qed.

(** The total rows of zone [c] among the rows of [weave]. *)
Lemma weave_total_rows (zr : string → Row) data (cz : option string)
    (Q : Row → Prop) `{!∀ r, Decision (Q r)} (c : string) :
  Forall (λ r, ¬ Q r) data → (∀ c', Q (zr c') ↔ c' = c) →
  filter Q (weave zr data cz) = zr <$> filter (λ c', c' = c) (emitted data cz).
Proof.
  intros Hdata Hzr. revert cz.
  induction Hdata as [|r data Hr _ IH]; intros cz; [done|].
  cbn [weave emitted]. rewrite !filter_app, fmap_app, filter_cons_False, IH by done.
  f_equal. destruct (decide (zone r ≠ cz)); [|done].
  destruct cz as [c'|]; [|done]. simpl.
  rewrite !filter_cons, !filter_nil.
  destruct (decide (c' = c)) as [->|Hne].
  - rewrite decide_True; [done|]. by apply Hzr.
  - rewrite decide_False; [done|]. by intros ?%Hzr.
Qed.

Lemma NoDup_filter_eq_1 (l : list string) (c : string) :
  NoDup l → c ∈ l → length (filter (λ c', c' = c) l) = 1.
Proof.
  induction 1 as [|x l Hx Hnd IH]; [by intros ?%elem_of_nil|].
  intros [->|Hc]%elem_of_cons.
  - rewrite filter_cons_True by done. simpl. f_equal.
    assert (filter (λ c', c' = x) l = []) as ->; [|done].
    clear IH Hnd. induction l as [|y l IH]; [done|].
    apply not_elem_of_cons in Hx as [Hne Hx].
    rewrite filter_cons_False by congruence. by apply IH.
  - rewrite filter_cons_False; [by apply IH|]. intros ->. done.
Qed.

(** X5: when every point row of the report has a zone, every zone with a
    non-empty name that has a point row has exactly one total row. *)
Theorem X5_one_total_row_per_named_zone (f : Filters) (s : Site) :
  ∃ rows, get_point_wise_attendance f s = Some rows ∧
    ((∀ r, r ∈ point_rows rows → zone r ≠ None) →
     ∀ c, zone_point_rows c rows ≠ [] → c ≠ "" →
       length (filter (λ r, point r = "" ∧ zone r = Some (c +:+ " Total"))
                 (all_but_last rows)) = 1).
Proof.
  destruct (report_structure f s) as (data0 & zwd & _ & Hdata & Hrep).
  eexists. split; [done|]. set (data := sort_by_key sort_key data0) in *.
  rewrite all_but_last_snoc. intros Hsome c Hc Hne.
  assert (point_rows (report_body data ++ [grand_row data]) = data) as Hpts.
  { unfold point_rows. rewrite filter_app, report_body_point_rows by done.
    rewrite filter_cons_False by (intros H; by apply H).
    by rewrite filter_nil, app_nil_r. }
  rewrite Hpts in Hsome. rewrite zone_point_rows_report in Hc by done.
  assert (Some c ∈ zone <$> data) as Hin.
  { destruct (filter _ data) as [|r l] eqn:Hf; [done|].
    assert (r ∈ filter (λ r, zone r = Some c) data) as [<- ?]%list_elem_of_filter
      by (rewrite Hf; apply list_elem_of_here).
    by apply list_elem_of_fmap_2. }
  assert (∀ c', (point (zrow data c') = "" ∧ zone (zrow data c') = Some (c +:+ " Total"))
                ↔ c' = c) as Hzr.
  { intros c'. simpl. split; [|by intros ->].
    intros [_ Hz]. injection Hz as Hz. by apply str_app_inj_r in Hz. }
  assert (Forall (λ r, ¬ (point r = "" ∧ zone r = Some (c +:+ " Total"))) data) as Hnot.
  { eapply Forall_impl; [exact Hdata|]. intros r [Hp _] [Hp' _]. done. }
  unfold report_body. rewrite filter_app, length_app.
  rewrite (weave_total_rows _ _ _ _ c Hnot Hzr), length_fmap.
  assert (filter (λ r, point r = "" ∧ zone r = Some (c +:+ " Total"))
            (zrow data <$> tail_zone data)
          = zrow data <$> filter (λ c', c' = c) (tail_zone data)) as ->.
  { induction (tail_zone data) as [|c' l IH]; [done|].
    rewrite fmap_cons, !filter_cons, IH.
    destruct (decide (c' = c)) as [->|Hn].
    - rewrite decide_True; [done|]. by apply Hzr.
    - rewrite decide_False; [done|]. by intros ?%Hzr. }
  rewrite length_fmap, <- length_app, <- filter_app.
  apply NoDup_filter_eq_1.
  - apply totals_NoDup; [|apply sort_by_key_StronglySorted].
    apply Forall_forall. intros r Hr. specialize (Hsome r Hr).
    unfold sort_key. by destruct (zone r).
  - by apply zone_gets_total.
Qed.

Lemma X5_witness :
  ∃ rows, get_point_wise_attendance (with_companies demo_filters two_zone_site)
            two_zone_site = Some rows ∧
    length (zone_point_rows "Z1" rows) = 1 ∧
    length (filter (λ r, point r = "" ∧ zone r = Some ("Z1" +:+ " Total"))
              (all_but_last rows)) = 1.
Proof.
  destruct (X5_one_total_row_per_named_zone
              (with_companies demo_filters two_zone_site) two_zone_site)
    as (rows & Hrows & H).
  exists rows. split; [done|].
  vm_compute in Hrows. injection Hrows as <-. split; [reflexivity|].
  apply H; [|done|done].
  intros r Hr. vm_compute in Hr.
  apply elem_of_cons in Hr as [->|Hr]; [done|].
  apply elem_of_cons in Hr as [->|Hr]; [done|].
  by apply elem_of_nil in Hr.
Defined.



Lemma X1_witness :
  ∃ rows r,
    get_point_wise_attendance (with_companies demo_filters scenario_site)
      scenario_site = Some rows ∧
    point <$> point_rows rows = ["P1"; "P2"] ∧
    rows !! 0 = Some r ∧ point r = "P1" ∧
    total_employees r = 3%Z ∧
    length (point_employees (with_companies demo_filters scenario_site)
              scenario_site "P1") = 3 ∧
    (present r, absent r, on_leave r) = (2, 1, 0)%Z.
Proof.
  destruct (X1_point_rows_read_off_tables
              (with_companies demo_filters scenario_site) scenario_site)
    as (rows & Hrows & _ & _ & Hrow).
  exists rows. pose proof Hrows as Heq. vm_compute in Heq. injection Heq as <-.
  eexists. split; [exact Hrows|]. split; [reflexivity|]. split; [reflexivity|].
  split; [reflexivity|].
  edestruct Hrow as (Ht & _ & Hc & _); [apply list_elem_of_here|].
  split; [by rewrite Ht|]. split; [reflexivity|]. by rewrite Hc.
Defined.

Lemma X2_witness :
  ∃ rows r,
    get_point_wise_attendance (with_companies demo_filters scenario_site)
      scenario_site = Some rows ∧
    rows !! 0 = Some r ∧ point r = "P1" ∧
    (attendance_percentage r == 200 # 3)%Q ∧
    (0 <= attendance_percentage r)%Q ∧ (attendance_percentage r <= 100)%Q.
Proof.
  destruct (X2_percentage_between_0_and_100
              (with_companies demo_filters scenario_site) scenario_site)
    as (rows & Hrows & H).
  exists rows. pose proof Hrows as Heq. vm_compute in Heq. injection Heq as <-.
  eexists. split; [exact Hrows|]. split; [reflexivity|]. split; [reflexivity|].
  split; [reflexivity|].
  edestruct H as (_ & _ & _ & Hlo & Hhi); [apply list_elem_of_here|]. by split.
Defined.

Lemma X3_witness :
  ∃ rows r,
    get_point_wise_attendance (with_companies demo_filters scenario_site)
      scenario_site = Some rows ∧
    rows !! 2 = Some r ∧ zone r = Some "Z1 Total" ∧
    length (zone_point_rows "Z1" rows) = 2 ∧
    total_employees r = 5%Z ∧
    total_employees r = sum_of total_employees (zone_point_rows "Z1" rows).
Proof.
  destruct (X3_totals_are_sums_of_point_rows
              (with_companies demo_filters scenario_site) scenario_site)
    as (rows & g & Hrows & _ & _ & _ & _ & H).
  exists rows. pose proof Hrows as Heq. vm_compute in Heq. injection Heq as <-.
  eexists. split; [exact Hrows|]. split; [reflexivity|]. split; [reflexivity|].
  split; [reflexivity|]. split; [reflexivity|].
  match goal with
  | |- total_employees ?r = _ =>
      destruct (H r "Z1") as (Ht & _); [|reflexivity|reflexivity|exact Ht]
  end.
  do 2 apply list_elem_of_further. apply list_elem_of_here.
Defined.

End point_wise_attendance_more.

(** ** More on the permission filter *)

Section employee_more.
Import employee.
Implicit Types (tbl : list Employee) (prev : list HRow) (x m : string).


Lemma elem_of_subordinate_names (s : Site) (emp x : string) :
  acyclic (tabEmployee s) →
  length (tabEmployee s) ≤ max_recursive_iterations s →
  x ∈ subordinate_names s emp ↔ x = emp ∨ subordinate (tabEmployee s) x emp.
Proof.
  intros Hac Hfuel. unfold subordinate_names.
  by rewrite elem_of_cons, emp_hierarchy_subordinates.
Qed.


Lemma demo_site_acyclic : acyclic (tabEmployee demo_site).
Proof.
  apply (acyclic_by_rank _ (λ x, if bool_decide (x = "E-ceo") then 0
                                  else if bool_decide (x = "E-lead") then 1 else 2)).
  simpl. repeat (apply Forall_cons_2; [simpl; intros m [= <-]; vm_compute; lia|]).
  apply Forall_nil_2.
Qed.


(** X8: a manager's list holds the list of each subordinate.  On a
    hierarchy without cycle and with enough rounds, when [emp2] is a
    direct or indirect subordinate of [emp1], every id listed for [emp2]
    is listed for [emp1]. *)
Theorem X8_manager_list_includes_subordinate_list (s : Site) (emp1 emp2 : string) :
  acyclic (tabEmployee s) →
  length (tabEmployee s) ≤ max_recursive_iterations s →
  subordinate (tabEmployee s) emp2 emp1 →
  ∀ x, x ∈ subordinate_names s emp2 → x ∈ subordinate_names s emp1.
Proof.
  intros Hac Hfuel Hsub x. rewrite !elem_of_subordinate_names by done.
  intros [->|Hx]; right; [done|]. unfold subordinate in *. by etrans.
Qed.

Lemma X8_witness :
  subordinate_names demo_site "E-lead" = ["E-lead"; "E-dev1"; "E-dev2"] ∧
  subordinate_names demo_site "E-ceo"
  = ["E-ceo"; "E-lead"; "E-old"; "E-dev1"; "E-dev2"] ∧
  ∀ x, x ∈ subordinate_names demo_site "E-lead" →
       x ∈ subordinate_names demo_site "E-ceo".
Proof.
  split; [reflexivity|]. split; [reflexivity|].
  apply (X8_manager_list_includes_subordinate_list demo_site "E-ceo" "E-lead").
  - apply demo_site_acyclic.
  - simpl. lia.
  - apply tc_once. exists (mk "E-lead" (Some "lead@x") (Some "E-ceo") "Active").
    split; [|done].
    simpl. do 2 apply list_elem_of_further. apply list_elem_of_here.
Defined.

(** Below an employee on a cycle there is somebody at every depth. *)
Lemma cycle_every_depth tbl (emp : string) (k : nat) :
  subordinate tbl emp emp →
  ∃ x, nsteps (reports tbl) k x emp ∧ tc (reports tbl) emp x.
Proof.
  intros Hcyc. induction k as [|k (x & Hn & Hx)].
  - exists emp. split; [constructor|done].
  - apply tc_nsteps in Hx as (n & Hpos & Hx).
    destruct n as [|n]; [lia|]. apply nsteps_inv_r in Hx as (y & Hy & Hyx).
    exists y. split; [by eapply nsteps_l|].
    destruct n as [|n].
    + inversion Hy; subst. done.
    + apply tc_nsteps. exists (S n). split; [lia|done].
Qed.

Lemma emp_hierarchy_uses_all_rounds fuel tbl prev :
  (∀ k, Nat.iter k (recursive_member tbl) prev ≠ []) →
  fuel ≤ length (emp_hierarchy fuel tbl prev).
Proof.
  revert prev. induction fuel as [|fuel IH]; intros prev Hne; simpl; [lia|].
  destruct prev as [|h prev]; [by destruct (Hne 0)|].
  rewrite length_app. simpl.
  specialize (IH (recursive_member tbl (h :: prev))).
  assert (fuel ≤ length (emp_hierarchy fuel tbl (recursive_member tbl (h :: prev))));
    [|lia].
  apply IH. intros k. rewrite <- Nat.iter_succ_r. apply Hne.
Qed.

(** X9: on a hierarchy with a cycle through the employee the recursive
    query never comes to a round without rows: it runs for all the rounds
    it is allowed and returns at least one row for each, whatever the
    limit; and once the limit is large enough the employee's own id is
    among the names returned, so it is listed twice. *)
Theorem X9_cycle_exhausts_the_rounds (s : Site) (emp : string) :
  subordinate (tabEmployee s) emp emp →
  (∀ fuel, fuel ≤ length (emp_hierarchy fuel (tabEmployee s)
                            (anchor (tabEmployee s) emp))) ∧
  ∃ n, ∀ fuel, n ≤ fuel →
    emp ∈ h_name <$> emp_hierarchy fuel (tabEmployee s) (anchor (tabEmployee s) emp).
Proof.
  intros Hcyc. split.
  - intros fuel. apply emp_hierarchy_uses_all_rounds. intros k Hnil.
    destruct (cycle_every_depth _ emp (S k) Hcyc) as (x & Hx & _).
    apply round_names in Hx. rewrite Hnil in Hx. by apply elem_of_nil in Hx.
  - apply tc_nsteps in Hcyc as (n & Hpos & Hn). destruct n as [|n]; [lia|].
    exists (S n). intros fuel Hfuel.
    apply round_names, list_elem_of_fmap in Hn as (h & -> & Hh).
    apply list_elem_of_fmap_2, emp_hierarchy_rounds. exists n. split; [lia|done].
Qed.

Lemma X9_witness :
  (∀ fuel, fuel ≤ length (emp_hierarchy fuel (tabEmployee cyclic_site)
                            (anchor (tabEmployee cyclic_site) "A"))) ∧
  ∃ n, ∀ fuel, n ≤ fuel →
    "A" ∈ h_name <$> emp_hierarchy fuel (tabEmployee cyclic_site)
                       (anchor (tabEmployee cyclic_site) "A").
Proof.
  apply (X9_cycle_exhausts_the_rounds cyclic_site "A").
  eapply tc_l; [|apply tc_once].
  - exists (mk "A" (Some "a@x") (Some "B") "Active"). split; [|done].
    apply list_elem_of_here.
  - exists (mk "B" (Some "b@x") (Some "A") "Active"). split; [|done].
    apply list_elem_of_further, list_elem_of_here.
Defined.

Lemma NoDup_fmap_elem_inj {A B} (g : A → B) (l : list A) (a b : A) :
  NoDup (g <$> l) → a ∈ l → b ∈ l → g a = g b → a = b.
Proof.
  induction l as [|c l IH]; [by intros _ ?%elem_of_nil|].
  rewrite fmap_cons, NoDup_cons. intros [Hc Hnd] Ha Hb Hg.
  apply elem_of_cons in Ha as [->|Ha]; apply elem_of_cons in Hb as [->|Hb].
  - done.
  - destruct Hc. rewrite Hg. by apply list_elem_of_fmap_2.
  - destruct Hc. rewrite <- Hg. by apply list_elem_of_fmap_2.
  - by apply IH.
Qed.

(** With one row per name, an employee reports to one manager. *)
Lemma reports_functional tbl x m m' :
  NoDup (name <$> tbl) → reports tbl x m → reports tbl x m' → m = m'.
Proof.
  intros Hnd (e & He & Hn & Hr) (e' & He' & Hn' & Hr').
  assert (e = e') as <- by (eapply (NoDup_fmap_elem_inj name); [done..|congruence]).
  congruence.
Qed.

Lemma nsteps_functional {A} (R : relation A) (a b : nat) (x y z : A) :
  (∀ u v w, R u v → R u w → v = w) →
  nsteps R a x y → nsteps R b x z → a ≤ b → nsteps R (b - a) y z.
Proof.
  intros Hf Ha. revert b z. induction Ha as [x|a x x' y Hx Ha IH]; intros b z Hb Hab.
  - by rewrite Nat.sub_0_r.
  - destruct Hb as [|b x x'' z Hx' Hb]; [lia|].
    assert (x' = x'') as <- by by eapply Hf. simpl. apply IH; [done|lia].
Qed.

(** The rows one employee gives in a round: one at most, when the names
    of the previous round are all different. *)
Lemma join_one_employee (e : Employee) prev :
  NoDup (h_name <$> prev) →
  (h_name <$> (eh ← prev;
               if decide (reports_to e = Some (h_name eh))
               then [ {| h_name := name e; h_reports_to := reports_to e;
                         h_level := (h_level eh + 1)%Z |} ]
               else []))
  `sublist_of` [name e].
Proof.
  induction prev as [|eh prev IH]; [intros _; apply sublist_nil_l|].
  rewrite fmap_cons, NoDup_cons. intros [Hnin Hnd].
  rewrite bind_cons, fmap_app.
  destruct (decide (reports_to e = Some (h_name eh))) as [Hr|Hr].
  - assert ((eh' ← prev;
             if decide (reports_to e = Some (h_name eh'))
             then [ {| h_name := name e; h_reports_to := reports_to e;
                       h_level := (h_level eh' + 1)%Z |} ]
             else []) = []) as ->; [|done].
    clear IH Hnd. induction prev as [|eh' prev IH]; [done|].
    rewrite fmap_cons, not_elem_of_cons in Hnin. destruct Hnin as [Hne Hnin].
    rewrite bind_cons, decide_False by congruence. by apply IH.
  - by apply IH.
Qed.

Lemma recursive_member_sublist tbl prev :
  NoDup (h_name <$> prev) →
  (h_name <$> recursive_member tbl prev) `sublist_of` (name <$> tbl).
Proof.
  intros Hnd. unfold recursive_member.
  induction tbl as [|e tbl IH]; [done|].
  rewrite bind_cons, fmap_app, fmap_cons.
  apply (sublist_app _ [name e]); [by apply join_one_employee|done].
Qed.

Lemma rounds_depth tbl (emp : string) prev (n k : nat) x :
  (∀ y, y ∈ h_name <$> prev → nsteps (reports tbl) n y emp) →
  x ∈ h_name <$> Nat.iter k (recursive_member tbl) prev →
  nsteps (reports tbl) (k + n) x emp.
Proof.
  intros Hprev. revert x. induction k as [|k IH]; intros x; simpl; [apply Hprev|].
  intros (m & Hm & Hr)%recursive_member_names. eapply nsteps_l; [done|]. by apply IH.
Qed.

(** The names of the query have no duplicate, given one row per name
    and no cycle. *)
Lemma emp_hierarchy_NoDup fuel tbl (emp : string) prev (n : nat) :
  NoDup (name <$> tbl) → acyclic tbl →
  NoDup (h_name <$> prev) →
  (∀ y, y ∈ h_name <$> prev → nsteps (reports tbl) (S n) y emp) →
  NoDup (h_name <$> emp_hierarchy fuel tbl prev).
Proof.
  intros Huniq Hac. revert prev n.
  induction fuel as [|fuel IH]; intros prev n Hnd Hprev; simpl; [constructor|].
  destruct prev as [|h prev]; [constructor|].
  rewrite fmap_app. apply NoDup_app. split_and!.
  - done.
  - intros x Hx (h' & -> & Hin)%list_elem_of_fmap.
    apply emp_hierarchy_rounds in Hin as (k & _ & Hin).
    apply (list_elem_of_fmap_2 h_name) in Hin.
    rewrite <- Nat.iter_succ_r in Hin.
    apply (rounds_depth tbl emp _ (S n) (S k)) in Hin; [|done].
    apply Hprev in Hx.
    pose proof (nsteps_functional (reports tbl) (S n) (S k + S n) _ _ _
                  (λ u v w, reports_functional tbl u v w Huniq) Hx Hin) as Hcyc.
    replace (S k + S n - S n) with (S k) in Hcyc by lia.
    apply (Hac emp), tc_nsteps. exists (S k). split; [lia|]. apply Hcyc. lia.
  - apply (IH _ (S n)).
    + eapply sublist_NoDup; [exact Huniq|]. by apply recursive_member_sublist.
    + intros y (m & Hm & Hr)%recursive_member_names.
      eapply nsteps_l; [done|]. by apply Hprev.
Qed.

(** X10: with one Employee row per name and no cycle, no id is listed
    twice in the names of the IN-list, whatever the number of rounds. *)
Theorem X10_in_list_without_duplicate (s : Site) (emp : string) :
  NoDup (name <$> tabEmployee s) → acyclic (tabEmployee s) →
  NoDup (subordinate_names s emp).
Proof.
  intros Huniq Hac. unfold subordinate_names. constructor.
  - intros (h & -> & Hin)%list_elem_of_fmap.
    apply emp_hierarchy_rounds in Hin as (k & _ & Hin).
    apply (list_elem_of_fmap_2 h_name), round_names in Hin.
    apply (Hac (h_name h)), tc_nsteps. exists (S k). split; [lia|done].
  - apply (emp_hierarchy_NoDup _ _ emp _ 0); [done|done| |].
    + unfold anchor. rewrite <- list_fmap_compose.
      eapply sublist_NoDup; [exact Huniq|].
      apply (fmap_sublist name), sublist_filter.
    + intros y Hy. apply anchor_names in Hy. by apply nsteps_once.
Qed.

Lemma X10_witness :
  subordinate_names demo_site "E-ceo"
  = ["E-ceo"; "E-lead"; "E-old"; "E-dev1"; "E-dev2"] ∧
  NoDup (subordinate_names demo_site "E-ceo").
Proof.
  split; [reflexivity|].
  apply (X10_in_list_without_duplicate demo_site "E-ceo").
  - simpl. apply (bool_decide_unpack _). vm_compute. exact I.
  - apply demo_site_acyclic.
Defined.

End employee_more.

(** ** More on the route hook *)

Section route_more.
Import route.

(** X11: the hook either commits or logs, never both.  It commits once,
    with the error log as it was and the Job Opening table as the insert
    left it, exactly when the route has a [route_name] without [default]
    in it and the insert of the Job Opening made for the route succeeds;
    it adds one entry to the error log, with no commit, exactly when the
    route has no [route_name] or that insert raises; a route without
    [route_name] leaves the Job Opening table as it was. *)
Theorem X11_commit_or_log_never_both (fw : Framework) (doc : RouteDoc)
    (method : string) (st : Site) :
  let st' := after_insert fw doc method st in
  let inserted := insert_job_opening fw (tabJobOpening st) (job_opening_for fw doc) in
  let wanted :=
    ∃ rn, route_name doc = Some rn ∧ contains "default" (str_lower fw rn) = false in
  ((wanted ∧ inserted.2 = true) ↔
     commits st' = S (commits st)) ∧
  ((route_name doc = None ∨ (wanted ∧ inserted.2 = false)) ↔
     tabErrorLog st' = tabErrorLog st ++ [error_title doc]) ∧
  (commits st' = S (commits st) →
     tabErrorLog st' = tabErrorLog st ∧ tabJobOpening st' = inserted.1) ∧
  (tabErrorLog st' = tabErrorLog st ++ [error_title doc] → commits st' = commits st) ∧
  (commits st' = commits st ∨ commits st' = S (commits st)) ∧
  (route_name doc = None → tabJobOpening st' = tabJobOpening st).
Proof.
  intros st' inserted wanted. subst st' inserted wanted. unfold after_insert.
  fold (job_opening_for fw doc).
  assert (∀ l : list string, l ≠ l ++ [error_title doc]) as Hlog.
  { intros l H. apply (f_equal length) in H. rewrite length_app in H. simpl in H. lia. }
  assert (∀ n : nat, n ≠ S n) as Hsucc by (intros n; lia).
  destruct (route_name doc) as [rn|] eqn:Hrn;
    [destruct (contains "default" (str_lower fw rn)) eqn:Hdef;
     [|destruct (insert_job_opening fw (tabJobOpening st) (job_opening_for fw doc))
         as [tbl [|]] eqn:Hins]|];
    simpl; split_and!;
    try (split; intros); try (intros);
    repeat match goal with
      | H : _ ∧ _ |- _ => destruct H
      | H : _ ∨ _ |- _ => destruct H
      | H : ∃ _, _ |- _ => destruct H
      | H : ?l = ?l ++ [_] |- _ => by apply Hlog in H
      | H : ?n = S ?n |- _ => by apply Hsucc in H
      | H : S ?n = ?n |- _ => symmetry in H; by apply Hsucc in H
      end;
    simplify_eq; try done; try congruence; try (by left); try (by right);
    try (split; [by eexists|done]); try (right; split; [by eexists|done]).
Qed.

(** X12: with [lower] as it is on ASCII letters, a route whose
    [route_name] has [default] in it in any mix of upper and lower case
    leaves the site as it was. *)
Theorem X12_default_in_any_case_is_skipped (fw : Framework) (doc : RouteDoc)
    (method : string) (st : Site) (pre mid post : string) :
  (∀ x, str_lower fw x = lower_ascii x) →
  route_name doc = Some (pre +:+ mid +:+ post) →
  lower_ascii mid = "default" →
  after_insert fw doc method st = st.
Proof.
  intros Hlower Hrn Hmid. unfold after_insert. rewrite Hrn, Hlower.
  by rewrite contains_default_any_case.
Qed.

Lemma X12_witness :
  let doc := {| name := "R-0003"; route_name := Some "old DeFaUlT route";
                branch := None |} in
  after_insert demo_fw doc "after_insert" empty_site = empty_site.
Proof.
  apply (X12_default_in_any_case_is_skipped demo_fw _ "after_insert" empty_site
           "old " "DeFaUlT" " route"); reflexivity.
Defined.

Lemma X11_witness :
  let doc := {| name := "R-0002"; route_name := Some "North"; branch := None |} in
  commits (after_insert demo_fw doc "after_insert" empty_site) = 1 ∧
  tabErrorLog (after_insert demo_fw doc "after_insert" empty_site) = [] ∧
  tabJobOpening (after_insert demo_fw doc "after_insert" empty_site)
  = [job_opening_for demo_fw doc] ∧
  commits (after_insert failing_fw doc "after_insert" empty_site) = 0 ∧
  tabErrorLog (after_insert failing_fw doc "after_insert" empty_site)
  = [error_title doc].
Proof.
  intros doc.
  destruct (X11_commit_or_log_never_both demo_fw doc "after_insert" empty_site)
    as (Hc & _ & Hcl & _).
  destruct (X11_commit_or_log_never_both failing_fw doc "after_insert" empty_site)
    as (_ & Hl & _ & Hlc & _).
  assert (commits (after_insert demo_fw doc "after_insert" empty_site) = 1) as Hc1.
  { apply Hc. split; [by exists "North"|reflexivity]. }
  destruct (Hcl Hc1) as [-> ->].
  assert (tabErrorLog (after_insert failing_fw doc "after_insert" empty_site)
          = [error_title doc]) as Hl1.
  { apply Hl. right. split; [by exists "North"|reflexivity]. }
  rewrite (Hlc Hl1). done.
Defined.

End route_more.

(** ** More on the farmer visit endpoints *)

Section farmer_visit_api_more.
Import farmer_visit_api.

Lemma create_visit_own (fw : Framework) (farmer_name employee : Value)
    (detail : gmap string Value) (st : Site) :
  own_response (create_visit fw farmer_name employee detail st).
Proof.
  unfold create_visit, own_response.
  destruct (insert_visit _ _ _) as [tbl [e|visit_name]]; simpl.
  - split; [done|]. right. split_and!; [done..|]. unfold codes_400.
    do 3 apply list_elem_of_further. apply list_elem_of_here.
  - destruct (submit_visit _ _ _) as [tbl' [e|]]; simpl.
    + split; [done|]. right. split_and!; [done..|]. unfold codes_400.
      do 3 apply list_elem_of_further. apply list_elem_of_here.
    + split; [done|]. left. split_and!; [done..|]. by eexists.
Qed.

(** X13: the status set on the response and the dictionary returned by
    [create_farmer_visit] agree.  Either the verifier's dictionary is
    passed on with status 401, or the generic handler's with status 500,
    or the dictionary is built by the endpoint: then its
    [http_status_code] is the status set on the response, and it is 201
    with [success], code [VISIT_CREATED] and data, or 400 without
    [success] or data and with one of the four error codes. *)
Theorem X13_status_and_dictionary_agree (fw : Framework) (headers : string)
    (farmer_name : option string)
    (farmer_create_detail : option (gmap string Value))
    (visit_tracker_detail : gmap string Value) (st : Site) :
  let out := create_farmer_visit fw headers farmer_name farmer_create_detail
               visit_tracker_detail st in
  passes_verifier fw headers out ∨ passes_handler fw out ∨ own_response out.
Proof.
  intros out. subst out. unfold create_farmer_visit.
  destruct (verify_dp_token fw headers) as [result|result] eqn:Hv.
  { left. by split. }
  destruct (result !! "employee") as [employee|].
  2:{ right. left. split; [done|]. by eexists. }
  destruct (negb (truthy_str farmer_name) && negb (truthy_dict farmer_create_detail)).
  { right. right. split; [done|]. right. split_and!; [done..|]. apply list_elem_of_here. }
  assert (∀ st1 fn, passes_verifier fw headers
            (match handle_image fw visit_tracker_detail st1 with
             | inl (st2, inl response) => (st2, response)
             | inl (st2, inr detail) => create_visit fw fn employee detail st2
             | inr (e, st2) => unhandled fw e st2
             end) ∨
          passes_handler fw
            (match handle_image fw visit_tracker_detail st1 with
             | inl (st2, inl response) => (st2, response)
             | inl (st2, inr detail) => create_visit fw fn employee detail st2
             | inr (e, st2) => unhandled fw e st2
             end) ∨
          own_response
            (match handle_image fw visit_tracker_detail st1 with
             | inl (st2, inl response) => (st2, response)
             | inl (st2, inr detail) => create_visit fw fn employee detail st2
             | inr (e, st2) => unhandled fw e st2
             end)) as Hrest.
  { intros st1 fn. unfold handle_image.
    destruct (visit_tracker_detail !! "visit_image") as [img|].
    - destruct (handle_base64_image _ _ _ _ _) as [files [res|e|e]].
      + destruct (res !! "file_url").
        * right. right. apply create_visit_own.
        * right. left. split; [done|]. by eexists.
      + right. right. split; [done|]. right. split_and!; [done..|].
        unfold codes_400. do 2 apply list_elem_of_further. apply list_elem_of_here.
      + right. left. split; [done|]. by eexists.
    - right. right. apply create_visit_own. }
  destruct farmer_create_detail as [detail|]; [|apply Hrest].
  destruct (truthy_dict (Some detail)); [|apply Hrest].
  destruct (insert_farmer _ _ _) as [tbl [e|new_name]]; [|apply Hrest].
  right. right. split; [done|]. right. split_and!; [done..|].
  unfold codes_400. apply list_elem_of_further, list_elem_of_here.
Qed.




(** X15: a [farmer_name] sent along with a non-empty
    [farmer_create_detail] is not used: the request is handled as if no
    [farmer_name] had been sent. *)
Theorem X15_farmer_name_unused_with_detail (fw : Framework) (headers : string)
    (farmer_name : option string) (detail visit_tracker_detail : gmap string Value)
    (st : Site) :
  detail ≠ ∅ →
  create_farmer_visit fw headers farmer_name (Some detail) visit_tracker_detail st
  = create_farmer_visit fw headers None (Some detail) visit_tracker_detail st.
Proof.
  intros Hne. unfold create_farmer_visit.
  assert (truthy_dict (Some detail) = true) as -> by by apply bool_decide_eq_true_2.
  by rewrite !andb_false_r.
Qed.

Lemma X15_witness :
  let detail : gmap string Value := {[ "farmer_name" := VStr "Ravi" ]} in
  let visit : gmap string Value :=
    <[ "purpose" := VStr "survey" ]> {[ "visit_date" := VStr "2025-01-01" ]} in
  create_farmer_visit demo_fw "Bearer t" (Some "FARMER-Old") (Some detail) visit empty_site
  = create_farmer_visit demo_fw "Bearer t" None (Some detail) visit empty_site ∧
  data (create_farmer_visit demo_fw "Bearer t" (Some "FARMER-Old") (Some detail) visit
          empty_site).2
  = Some (<["visit_id" := VStr "VISIT-2025-01-01"]>
            (<["farmer_id" := VStr "FARMER-Ravi"]> ∅)).
Proof.
  intros detail visit. split; [|reflexivity].
  apply (X15_farmer_name_unused_with_detail demo_fw).
  intros H. apply (f_equal (λ m : gmap string Value, m !! "farmer_name")) in H.
  vm_compute in H. discriminate.
Defined.


(** X16: the fields of the request body come last in the documents the
    endpoint builds, so they win: every field of
    [farmer_create_detail] is in the farmer document as sent, also
    [doctype] and [registered_by], which take their values from the
    endpoint (Farmer Details, the employee of the token) only when the
    body has none; likewise for [doctype], [farmer] and [visited_by] in
    the visit document. *)
Theorem X16_body_fields_override (employee farmer_name : Value)
    (detail : gmap string Value) :
  (∀ k v, detail !! k = Some v → farmer_doc employee detail !! k = Some v) ∧
  (detail !! "registered_by" = None →
     farmer_doc employee detail !! "registered_by" = Some employee) ∧
  (detail !! "doctype" = None →
     farmer_doc employee detail !! "doctype" = Some (VStr "Farmer Details")) ∧
  (∀ k v, detail !! k = Some v → visit_doc farmer_name employee detail !! k = Some v) ∧
  (detail !! "farmer" = None →
     visit_doc farmer_name employee detail !! "farmer" = Some farmer_name) ∧
  (detail !! "visited_by" = None →
     visit_doc farmer_name employee detail !! "visited_by" = Some employee) ∧
  (detail !! "doctype" = None →
     visit_doc farmer_name employee detail !! "doctype" = Some (VStr "Visit Tracker")).
Proof.
  unfold farmer_doc, visit_doc. split_and!.
  - intros k v Hk. by apply lookup_union_Some_l.
  - intros Hk. rewrite lookup_union_r by done. by simplify_map_eq.
  - intros Hk. rewrite lookup_union_r by done. by simplify_map_eq.
  - intros k v Hk. by apply lookup_union_Some_l.
  - intros Hk. rewrite lookup_union_r by done. by simplify_map_eq.
  - intros Hk. rewrite lookup_union_r by done. by simplify_map_eq.
  - intros Hk. rewrite lookup_union_r by done. by simplify_map_eq.
Qed.

Lemma X16_witness :
  let detail : gmap string Value :=
    <[ "registered_by" := VStr "EMP-9999" ]> {[ "farmer_name" := VStr "Ravi" ]} in
  let visit : gmap string Value :=
    <[ "purpose" := VStr "survey" ]> {[ "visit_date" := VStr "2025-01-01" ]} in
  let out := create_farmer_visit demo_fw "Bearer t" None (Some detail) visit empty_site in
  tabFarmerDetails out.1 = [("FARMER-Ravi", farmer_doc (VStr "EMP-0001") detail)] ∧
  farmer_doc (VStr "EMP-0001") detail !! "registered_by" = Some (VStr "EMP-9999") ∧
  farmer_doc (VStr "EMP-0001") detail !! "doctype" = Some (VStr "Farmer Details").
Proof.
  intros detail visit out. split; [reflexivity|].
  destruct (X16_body_fields_override (VStr "EMP-0001") VNone detail)
    as (Hk & _ & Hd & _).
  split; [by apply Hk|by apply Hd].
Defined.





(** *** The read endpoints *)

Lemma contains_char (c d : Ascii.ascii) (s : string) :
  contains (String c "") (String d s)
  = bool_decide (c = d) || contains (String c "") s.
Proof. simpl. by rewrite andb_true_r. Qed.

Lemma split_on_nonempty (sep : Ascii.ascii) (s : string) :
  ∃ seg rest, split_on sep s = seg :: rest.
Proof.
  induction s as [|d s (seg & rest & IH)]; [by eexists _, _|].
  cbn [split_on]. rewrite IH. destruct (decide (d = sep)); by eexists _, _.
Qed.

Lemma split_on_cons (sep c : Ascii.ascii) (s : string) :
  c ≠ sep →
  ∃ seg rest, split_on sep s = seg :: rest ∧
              split_on sep (String c s) = String c seg :: rest.
Proof.
  intros Hc. destruct (split_on_nonempty sep s) as (seg & rest & Hs).
  exists seg, rest. split; [done|]. cbn [split_on].
  by rewrite decide_False, Hs.
Qed.

(** The pieces of a split have no separator in them. *)
Lemma split_on_one_line (s : string) : Forall one_line (split_on newline s).
Proof.
  induction s as [|c s IH]; [by repeat constructor|].
  destruct (decide (c = newline)) as [->|Hc].
  - cbn [split_on]. rewrite decide_True by done. by constructor.
  - destruct (split_on_cons newline c s Hc) as (seg & rest & Hs & ->).
    rewrite Hs in IH. apply Forall_cons in IH as [Hseg Hrest].
    constructor; [|done]. unfold one_line in *. rewrite contains_char.
    rewrite bool_decide_eq_false_2 by congruence. done.
Qed.

Lemma split_on_line (s : string) : one_line s → split_on newline s = [s].
Proof.
  unfold one_line. induction s as [|c s IH]; [done|].
  rewrite contains_char. intros [Hc Hs]%orb_false_iff.
  apply bool_decide_eq_false in Hc.
  cbn [split_on]. rewrite decide_False by congruence. by rewrite IH.
Qed.

Lemma split_on_line_then (s t : string) :
  one_line s → split_on newline (s +:+ String newline t) = s :: split_on newline t.
Proof.
  unfold one_line. induction s as [|c s IH].
  - intros _. change ("" +:+ String newline t) with (String newline t).
    cbn [split_on]. by rewrite decide_True.
  - rewrite contains_char. intros [Hc Hs]%orb_false_iff.
    apply bool_decide_eq_false in Hc.
    change (String c s +:+ String newline t) with (String c (s +:+ String newline t)).
    cbn [split_on]. rewrite decide_False by congruence. by rewrite IH.
Qed.

Lemma split_join (l : list string) :
  l ≠ [] → Forall one_line l → split_on newline (join nl l) = l.
Proof.
  intros Hne Hl. induction Hl as [|s l Hs Hl IH]; [done|].
  destruct l as [|s' l].
  - by apply split_on_line.
  - change (join nl (s :: s' :: l))
      with (s +:+ String newline (join nl (s' :: l))).
    rewrite split_on_line_then by done. by rewrite IH.
Qed.

(** X19: options written one per line come back as the list of the
    lines.  For every list of strings without newline, the options field
    made by joining them with newlines is read back by the endpoint as
    the same strings in the same order, the empty ones left out. *)
Theorem X19_options_lines_round_trip (l : list string) :
  Forall one_line l →
  field_options (join nl l) = filter (λ opt, opt ≠ "") l.
Proof.
  intros Hl. unfold field_options. destruct l as [|s l]; [done|].
  by rewrite split_join.
Qed.

Lemma X19_witness :
  field_options ("Male" +:+ nl +:+ "" +:+ nl +:+ "Female") = ["Male"; "Female"].
Proof.
  apply (X19_options_lines_round_trip ["Male"; ""; "Female"]).
  repeat constructor.
Defined.

Lemma field_options_clean (opts : string) :
  Forall (λ opt, opt ≠ "" ∧ one_line opt) (field_options opts).
Proof.
  unfold field_options. apply Forall_forall.
  intros opt [Hne Hin]%list_elem_of_filter. split; [done|].
  pose proof (split_on_one_line opts) as H. rewrite Forall_forall in H. by apply H.
Qed.

Lemma add_field_options_lookup (fs : list DocField) (acc : gmap string (list string))
    (fn : string) (l : list string) :
  Forall (λ field, fieldtype field = "Select") fs →
  foldl add_field_options acc fs !! fn = Some l →
  acc !! fn = Some l ∨ listed_from fs fn l.
Proof.
  intros Hsel. revert acc. induction Hsel as [|field fs Hf _ IH]; intros acc; simpl.
  - by left.
  - intros [Hacc|(field' & opts & Hin & ?)]%IH.
    + unfold add_field_options in Hacc.
      destruct (options field) as [opts|] eqn:Hopts; [|by left].
      case_bool_decide as Hne; [|by left].
      destruct (decide (fieldname field = fn)) as [<-|Hfn].
      * rewrite lookup_insert_eq in Hacc. injection Hacc as <-.
        right. exists field, opts. split_and!; [apply list_elem_of_here|done..].
      * rewrite lookup_insert_ne in Hacc by done. by left.
    + right. exists field', opts. split; [by apply list_elem_of_further|done].
Qed.

Lemma add_field_options_listed (fs : list DocField) (acc : gmap string (list string))
    (fn : string) :
  (is_Some (acc !! fn) ∨ ∃ l, listed_from fs fn l) →
  Forall (λ field, fieldtype field = "Select") fs →
  is_Some (foldl add_field_options acc fs !! fn).
Proof.
  intros H Hsel. revert acc H.
  induction Hsel as [|field fs Hf _ IH]; intros acc H; simpl.
  - destruct H as [?|(l & field & opts & Hin & _)]; [done|by apply elem_of_nil in Hin].
  - apply IH. unfold add_field_options.
    destruct H as [Hacc|(l & field' & opts & Hin & Hfn & Hty & Hopts & Hne & Hl)].
    + left. destruct (options field) as [opts|]; [|done].
      case_bool_decide; [|done]. destruct (decide (fieldname field = fn)) as [<-|Hfn].
      * rewrite lookup_insert_eq. by eexists.
      * by rewrite lookup_insert_ne.
    + apply elem_of_cons in Hin as [->|Hin].
      * left. rewrite Hopts, bool_decide_eq_true_2 by done.
        rewrite Hfn, lookup_insert_eq. by eexists.
      * right. exists l, field', opts. by split_and!.
Qed.

Lemma doctype_options_lookup (fields : list DocField) (fn : string) (l : list string) :
  doctype_options fields !! fn = Some l → listed_from fields fn l.
Proof.
  unfold doctype_options. intros H.
  apply add_field_options_lookup in H as [H|(field & opts & Hin & ?)].
  - by rewrite lookup_empty in H.
  - exists field, opts. split; [|done]. by apply list_elem_of_filter in Hin as [_ ?].
  - apply Forall_forall. by intros field [? _]%list_elem_of_filter.
Qed.

(** X20: what [get_field_options] lists.  With a valid token and both
    DocTypes known, the answer is 200 with the two keys
    [farmer_details] and [visit_tracker]; a field name is listed under a
    key exactly when the DocType has a Select field of that name with
    non-empty options, each list comes from the options of such a field,
    and no option listed is empty or has a newline in it.  When the
    meta of Farmer Details cannot be read the answer is 404 naming
    Farmer Details, whatever Visit Tracker is; when only that of Visit
    Tracker cannot, 404 naming Visit Tracker; no options are returned
    then. *)
Theorem X20_field_options_listed (fw : Framework)
    (get_meta : string → Exc + list DocField) (headers : string)
    (result : gmap string Value) :
  verify_dp_token fw headers = Valid result →
  (∀ e, get_meta "Farmer Details" = inl e →
     get_field_options fw get_meta headers
     = (404%Z, inr (error_reply "DocType Farmer Details not found"
                      "DOCTYPE_NOT_FOUND" 404))) ∧
  (∀ ff e, get_meta "Farmer Details" = inr ff → get_meta "Visit Tracker" = inl e →
     get_field_options fw get_meta headers
     = (404%Z, inr (error_reply "DocType Visit Tracker not found"
                      "DOCTYPE_NOT_FOUND" 404))) ∧
  (∀ ff vf, get_meta "Farmer Details" = inr ff → get_meta "Visit Tracker" = inr vf →
     get_field_options fw get_meta headers
     = options_reply (<["visit_tracker" := doctype_options vf]>
                        (<["farmer_details" := doctype_options ff]> ∅))) ∧
  (∀ fields fn,
     is_Some (doctype_options fields !! fn) ↔ ∃ l, listed_from fields fn l) ∧
  (∀ fields fn l, doctype_options fields !! fn = Some l →
     listed_from fields fn l ∧ Forall (λ opt, opt ≠ "" ∧ one_line opt) l).
Proof.
  intros Htok. unfold get_field_options. rewrite Htok. split_and!.
  - intros e He. simpl. by rewrite He.
  - intros ff e Hf Hv. simpl. by rewrite Hf, Hv.
  - intros ff vf Hf Hv. simpl. by rewrite Hf, Hv.
  - intros fields fn. split.
    + intros [l Hl]. exists l. by apply doctype_options_lookup.
    + intros Hl. unfold doctype_options.
      apply add_field_options_listed.
      * right. destruct Hl as (l & field & opts & Hin & Hfn & Hty & Hrest).
        exists l, field, opts. split; [|done]. apply list_elem_of_filter.
        by split.
      * apply Forall_forall. by intros field [? _]%list_elem_of_filter.
  - intros fields fn l Hl. apply doctype_options_lookup in Hl as Hfrom.
    split; [done|]. destruct Hfrom as (field & opts & _ & _ & _ & _ & _ & ->).
    apply field_options_clean.
Qed.

Lemma X20_witness :
  get_field_options demo_fw demo_meta "Bearer t"
  = options_reply
      (<["visit_tracker" := {[ "purpose" := ["Survey"; "Sale"] ]}]>
         (<["farmer_details" := {[ "gender" := ["Male"; "Female"] ]}]> ∅)).
Proof.
  rewrite (proj1 (proj2 (proj2 (X20_field_options_listed demo_fw demo_meta "Bearer t"
             {[ "employee" := VStr "EMP-0001" ]} eq_refl))) _ _ eq_refl eq_refl).
  reflexivity.
Defined.

Lemma get_village_found (t : RefTables) (v : string) :
  v ∈ v_name <$> tabVillage t →
  ∃ d, get_village t v = inr d ∧ v_name d = v ∧ d ∈ tabVillage t.
Proof.
  intros (d & -> & Hd)%list_elem_of_fmap. unfold get_village.
  destruct (filter (λ v, v_name v = v_name d) (tabVillage t)) as [|d' l] eqn:Hf.
  - exfalso. eapply (filter_nil_not_elem_of _ _ d); [exact Hf|done|done].
  - assert (d' ∈ filter (λ v, v_name v = v_name d) (tabVillage t)) as Hd'
      by (rewrite Hf; apply list_elem_of_here).
    apply list_elem_of_filter in Hd' as [? ?]. simpl. by exists d'.
Qed.

Lemma get_village_missing (t : RefTables) (v : string) :
  v ∉ v_name <$> tabVillage t →
  ∃ e, get_village t v = inl e ∧ exc_class e = "DoesNotExistError".
Proof.
  intros Hv. unfold get_village.
  destruct (filter (λ d, v_name d = v) (tabVillage t)) as [|d l] eqn:Hf.
  - simpl. by eexists.
  - assert (d ∈ filter (λ d, v_name d = v) (tabVillage t)) as Hd
      by (rewrite Hf; apply list_elem_of_here).
    apply list_elem_of_filter in Hd as [<- Hd]. destruct Hv.
    by apply list_elem_of_fmap_2.
Qed.

Lemma village_details_found (t : RefTables) (refs : list string) :
  Forall (λ v, v ∈ v_name <$> tabVillage t) refs →
  ∃ details, village_details t refs = inr details ∧
    v_name <$> details = refs ∧ Forall (λ d, d ∈ tabVillage t) details.
Proof.
  induction 1 as [|v refs Hv _ (details & IH & Hnames & Hin)].
  - by exists [].
  - destruct (get_village_found t v Hv) as (d & Hd & Hn & Hdin).
    exists (d :: details). cbn [village_details]. rewrite Hd, IH.
    split_and!; [done| |by constructor].
    by rewrite fmap_cons, Hn, Hnames.
Qed.

Lemma village_details_missing (t : RefTables) (refs : list string) :
  ¬ Forall (λ v, v ∈ v_name <$> tabVillage t) refs →
  ∃ e, village_details t refs = inl e ∧ exc_class e = "DoesNotExistError".
Proof.
  induction refs as [|v refs IH]; [intros H; destruct H; constructor|].
  intros Hnot. simpl.
  destruct (decide (v ∈ v_name <$> tabVillage t)) as [Hv|Hv].
  - destruct (get_village_found t v Hv) as (d & -> & _).
    destruct IH as (e & -> & He); [|by exists e].
    intros Hrefs. apply Hnot. by constructor.
  - destruct (get_village_missing t v Hv) as (e & -> & He). by exists e.
Qed.

(** X21: the villages of the caller.  With a valid token that names an
    employee: when no Village BDE Mapping has that employee the answer
    is 404 [NO_VILLAGES_ASSIGNED]; otherwise only the first mapping of
    the employee is used: when every village its Village Map rows name
    exists, the answer is 200 with the documents of exactly these
    villages, in the order of the rows (an empty list when it has no
    row), and when one of them does not exist the whole request fails
    with status 500 and the generic handler's dictionary. *)
Theorem X21_villages_of_first_mapping (fw : Framework) (t : RefTables)
    (headers : string) (result : gmap string Value) (employee : Value) :
  verify_dp_token fw headers = Valid result →
  result !! "employee" = Some employee →
  let mappings := filter (λ m, m.2 = employee) (tabVillageBDEMapping t) in
  (mappings = [] →
     get_assigned_villages fw t headers
     = (404%Z, inr (error_reply "No villages assigned to this employee"
                      "NO_VILLAGES_ASSIGNED" 404))) ∧
  (∀ first others, mappings = first :: others →
     let refs := (filter (λ vm, vm.1 = first.1) (tabVillageMap t)).*2 in
     (Forall (λ v, v ∈ v_name <$> tabVillage t) refs →
        ∃ details,
          get_assigned_villages fw t headers
          = (200%Z, inr (ok_reply "Villages retrieved successfully"
                           "VILLAGES_RETRIEVED" details)) ∧
          v_name <$> details = refs ∧ Forall (λ d, d ∈ tabVillage t) details) ∧
     (¬ Forall (λ v, v ∈ v_name <$> tabVillage t) refs →
        ∃ e,
          get_assigned_villages fw t headers
          = (500%Z, inl (handle_error_response fw e
                           "Error retrieving assigned villages")) ∧
          exc_class e = "DoesNotExistError")).
Proof.
  intros Htok Hemp mappings. subst mappings.
  unfold get_assigned_villages. rewrite Htok, Hemp. split.
  - by intros ->.
  - intros first others ->. split.
    + intros Hall. destruct (village_details_found t _ Hall) as (details & -> & ? & ?).
      by exists details.
    + intros Hnot. destruct (village_details_missing t _ Hnot) as (e & -> & ?).
      by exists e.
Qed.

Lemma X21_witness :
  ∃ details,
    get_assigned_villages demo_fw demo_tables "Bearer t"
    = (200%Z, inr (ok_reply "Villages retrieved successfully"
                     "VILLAGES_RETRIEVED" details)) ∧
    v_name <$> details = ["V1"; "V2"].
Proof.
  destruct (X21_villages_of_first_mapping demo_fw demo_tables "Bearer t"
              {[ "employee" := VStr "EMP-0001" ]} (VStr "EMP-0001") eq_refl eq_refl)
    as [_ H].
  destruct (H ("MAP-1", VStr "EMP-0001") [("MAP-2", VStr "EMP-0001")] eq_refl)
    as [Hok _].
  destruct Hok as (details & Hrep & Hnames & _).
  { apply (bool_decide_unpack _). vm_compute. exact I. }
  exists details. split; [done|]. rewrite Hnames. reflexivity.
Defined.

(** X22: the three read endpoints keep the status of the response and
    the dictionary they return in step; and [get_bmc_list] never answers
    200 with an empty list: it answers 200 with the whole BMC table when
    the table has a row, 404 [NO_BMCS_FOUND] when it has none. *)
Theorem X22_read_endpoints_status_agrees (fw : Framework)
    (get_meta : string → Exc + list DocField) (t : RefTables) (headers : string) :
  reply_agrees (get_field_options fw get_meta headers) ∧
  reply_agrees (get_assigned_villages fw t headers) ∧
  reply_agrees (get_bmc_list fw t headers) ∧
  (∀ result, verify_dp_token fw headers = Valid result →
     (tabBMC t = [] ∧
      get_bmc_list fw t headers
      = (404%Z, inr (error_reply "No BMCs found" "NO_BMCS_FOUND" 404))) ∨
     (tabBMC t ≠ [] ∧
      get_bmc_list fw t headers
      = (200%Z, inr (ok_reply "BMC list retrieved successfully"
                       "BMC_LIST_RETRIEVED" (tabBMC t))))).
Proof.
  unfold reply_agrees, get_field_options, get_assigned_villages, get_bmc_list.
  destruct (verify_dp_token fw headers) as [result|result].
  { split_and!; [by left..|]. by intros ?. }
  split_and!.
  - destruct (options_loop _ _ _); simpl; (split; [done|]); [right|left];
      split_and!; by eauto.
  - destruct (result !! "employee") as [employee|]; [|by right].
    destruct (filter _ _) as [|first others]; simpl.
    + split; [done|]. right. by split_and!.
    + destruct (village_details _ _); simpl; [by right|].
      split; [done|]. left. split_and!; by eauto.
  - destruct (tabBMC t); simpl; (split; [done|]); [right|left]; split_and!; by eauto.
  - intros _ _. destruct (tabBMC t); [by left|by right].
Qed.

Lemma X22_witness :
  get_bmc_list demo_fw demo_tables "Bearer t"
  = (404%Z, inr (error_reply "No BMCs found" "NO_BMCS_FOUND" 404)) ∧
  reply_agrees (get_assigned_villages demo_fw demo_tables "Bearer t") ∧
  reply_agrees (get_field_options demo_fw demo_meta "Bearer t").
Proof.
  destruct (X22_read_endpoints_status_agrees demo_fw demo_meta demo_tables "Bearer t")
    as (Hf & Hv & _ & Hb).
  destruct (Hb _ eq_refl) as [[_ ->]|[Hne _]]; [|by destruct Hne].
  by split_and!.
Defined.

End farmer_visit_api_more.
